(** * build-process-watcher: the log rendering pass of [src/cleanup.ts]

    A shallow embedding of [parseLogFile], [generateMermaidChart],
    [generateSvg] and the summary composed by [run], and of the timestamp
    and the record that [monitor.sh] writes, followed by the properties of
    the specification that concern them and by further properties of the
    code.

    Conventions of the embedding.
    - A JavaScript string is a [string]: a sequence of code units below 256.
    - A JavaScript number is a [jsnum]: [NaN], the two infinities, or a finite
      value carried as the exact rational it denotes.  Rounding to binary64,
      overflow and the sign of zero are not modelled: a finite result of the
      code is the value given here rounded to binary64, and an infinity past
      the largest binary64 number.  A property that needs the arithmetic to
      be exact carries the range in which binary64 agrees as a hypothesis.
    - A [Map] is an association list in insertion order, which is the order
      [Map.prototype.entries] iterates in.
    - An expression that throws ([toFixed] on [undefined]) yields [None]. *)

From Stdlib Require Import ZArith QArith Qround Qabs List String Ascii Bool Lia Arith.
From Stdlib Require Import Lqa Qfield.
From Stdlib Require Import DecimalString DecimalNat Sorted.
Import ListNotations.
Open Scope string_scope.

(* ================================================================== *)
(** ** Strings *)

Definition nl : string := String (ascii_of_nat 10) EmptyString.
Definition dq : string := String (ascii_of_nat 34) EmptyString.
Definition bq : string := String (ascii_of_nat 96) EmptyString.

(** WhiteSpace and LineTerminator code units below 256:
    TAB, LF, VT, FF, CR, SP and NBSP. *)
Definition isWhiteSpace (c : ascii) : bool :=
  let n := nat_of_ascii c in
  ((n =? 9) || (n =? 10) || (n =? 11) || (n =? 12) || (n =? 13)
   || (n =? 32) || (n =? 160))%nat.

Fixpoint trimStart (s : string) : string :=
  match s with
  | EmptyString => EmptyString
  | String c r => if isWhiteSpace c then trimStart r else s
  end.

Definition isEmpty (s : string) : bool :=
  match s with EmptyString => true | _ => false end.

Fixpoint trimEnd (s : string) : string :=
  match s with
  | EmptyString => EmptyString
  | String c r =>
      let r' := trimEnd r in
      if isWhiteSpace c && isEmpty r' then EmptyString else String c r'
  end.

(** [String.prototype.trim]. *)
Definition trim (s : string) : string := trimEnd (trimStart s).

(** [String.prototype.split] with a separator of one code unit. *)
Fixpoint split (sep : ascii) (s : string) : list string :=
  match s with
  | EmptyString => [EmptyString]
  | String c r =>
      if Ascii.eqb c sep then EmptyString :: split sep r
      else match split sep r with
           | [] => [String c EmptyString]
           | h :: t => String c h :: t
           end
  end.

Fixpoint dropStr (n : nat) (s : string) : string :=
  match n, s with
  | O, _ => s
  | S k, String _ r => dropStr k r
  | S _, EmptyString => EmptyString
  end.

(** [s.replace(pat, '')] with a string pattern: the first occurrence only. *)
Fixpoint removeFirst (pat s : string) : string :=
  if String.prefix pat s then dropStr (String.length pat) s
  else match s with
       | EmptyString => EmptyString
       | String c r => String c (removeFirst pat r)
       end.

(** [Array.prototype.join]. *)
Fixpoint join (sep : string) (l : list string) : string :=
  match l with
  | [] => EmptyString
  | [x] => x
  | x :: r => x ++ sep ++ join sep r
  end.

(** [.filter(Boolean)] on an array of strings: the empty string is falsy. *)
Definition filterBoolean (l : list string) : list string :=
  filter (fun s => negb (isEmpty s)) l.

Definition isAlnum (c : ascii) : bool :=
  let n := nat_of_ascii c in
  (((48 <=? n) && (n <=? 57)) || ((65 <=? n) && (n <=? 90))
   || ((97 <=? n) && (n <=? 122)))%nat.

(** [key.replace(/[^a-zA-Z0-9]/g, '_')]. *)
Fixpoint cleanKey (s : string) : string :=
  match s with
  | EmptyString => EmptyString
  | String c r => String (if isAlnum c then c else "_"%char) (cleanKey r)
  end.

(** Decimal rendering of an array index or a length. *)
Definition natStr (n : nat) : string := NilEmpty.string_of_uint (Nat.to_uint n).

(** No space among the code units of [s]. *)
Fixpoint noSpace (s : string) : bool :=
  match s with
  | EmptyString => true
  | String c r => negb (Ascii.eqb c " "%char) && noSpace r
  end.

(** [Array.prototype.indexOf] on strings: the first position, or -1. *)
Fixpoint indexOfFrom (i : Z) (x : string) (l : list string) : Z :=
  match l with
  | [] => (-1)%Z
  | y :: r => if String.eqb y x then i else indexOfFrom (i + 1) x r
  end.

Definition indexOf (x : string) (l : list string) : Z := indexOfFrom 0 x l.

(** [Array.prototype.includes] on strings. *)
Definition includes (x : string) (l : list string) : bool :=
  existsb (fun y => String.eqb y x) l.

(** Code-unit order, the order of the default [Array.prototype.sort]. *)
Definition strLeb (a b : string) : bool :=
  match String.compare a b with Gt => false | _ => true end.

Fixpoint insertSorted (x : string) (l : list string) : list string :=
  match l with
  | [] => [x]
  | y :: r => if strLeb x y then x :: l else y :: insertSorted x r
  end.

Definition sortStrings (l : list string) : list string :=
  fold_right insertSorted [] l.

(* ================================================================== *)
(** ** Numbers *)

Inductive jsnum : Type :=
| NaN
| PInf
| NInf
| Fin (q : Q).

Definition numZ (z : Z) : jsnum := Fin (inject_Z z).
Definition numNat (n : nat) : jsnum := numZ (Z.of_nat n).

Definition qsign (q : Q) : comparison := (Qnum q ?= 0)%Z.

Definition js_neg (a : jsnum) : jsnum :=
  match a with
  | NaN => NaN
  | PInf => NInf
  | NInf => PInf
  | Fin x => Fin (- x)
  end.

(** [a + b].  Finite operands are added as rationals; the code rounds the
    sum to binary64, so the two agree where the sum is a binary64 number, as
    on integers below 2^53. *)
Definition js_add (a b : jsnum) : jsnum :=
  match a, b with
  | NaN, _ | _, NaN => NaN
  | PInf, NInf | NInf, PInf => NaN
  | PInf, _ | _, PInf => PInf
  | NInf, _ | _, NInf => NInf
  | Fin x, Fin y => Fin (x + y)
  end.

Definition js_sub (a b : jsnum) : jsnum := js_add a (js_neg b).

(** [a * b], exact on finite operands as [js_add] is. *)
Definition js_mul (a b : jsnum) : jsnum :=
  match a, b with
  | NaN, _ | _, NaN => NaN
  | Fin x, Fin y => Fin (x * y)
  | PInf, Fin y | Fin y, PInf =>
      match qsign y with Eq => NaN | Gt => PInf | Lt => NInf end
  | NInf, Fin y | Fin y, NInf =>
      match qsign y with Eq => NaN | Gt => NInf | Lt => PInf end
  | PInf, PInf | NInf, NInf => PInf
  | PInf, NInf | NInf, PInf => NInf
  end.

(** [a / b], exact on finite operands as [js_add] is; a finite number over
    zero is an infinity of its sign, zero over zero is NaN. *)
Definition js_div (a b : jsnum) : jsnum :=
  match a, b with
  | NaN, _ | _, NaN => NaN
  | Fin x, Fin y =>
      match qsign y with
      | Eq => match qsign x with Eq => NaN | Gt => PInf | Lt => NInf end
      | _ => Fin (x / y)
      end
  | Fin _, PInf | Fin _, NInf => Fin 0
  | PInf, Fin y => match qsign y with Lt => NInf | _ => PInf end
  | NInf, Fin y => match qsign y with Lt => PInf | _ => NInf end
  | PInf, PInf | PInf, NInf | NInf, PInf | NInf, NInf => NaN
  end.

(** Truncation toward zero. *)
Definition Qtrunc (q : Q) : Z := Z.quot (Qnum q) (Zpos (Qden q)).

(** The [%] operator. *)
Definition js_rem (a b : jsnum) : jsnum :=
  match a, b with
  | NaN, _ | _, NaN => NaN
  | PInf, _ | NInf, _ => NaN
  | Fin x, PInf | Fin x, NInf => Fin x
  | Fin x, Fin y =>
      match qsign y with
      | Eq => NaN
      | _ => Fin (x - y * inject_Z (Qtrunc (x / y)))
      end
  end.

(** [Math.ceil]. *)
Definition js_ceil (a : jsnum) : jsnum :=
  match a with
  | Fin x => numZ (Qceiling x)
  | _ => a
  end.

(** [a < b] and [a <= b]: false as soon as one side is NaN. *)
Definition js_lt (a b : jsnum) : bool :=
  match a, b with
  | NaN, _ | _, NaN => false
  | Fin x, Fin y => negb (Qle_bool y x)
  | NInf, PInf | NInf, Fin _ | Fin _, PInf => true
  | _, _ => false
  end.

Definition js_le (a b : jsnum) : bool :=
  match a, b with
  | NaN, _ | _, NaN => false
  | Fin x, Fin y => Qle_bool x y
  | NInf, _ | _, PInf => true
  | _, _ => false
  end.

(** [a === b] on numbers. *)
Definition js_strict_eq (a b : jsnum) : bool :=
  match a, b with
  | Fin x, Fin y => Qeq_bool x y
  | PInf, PInf | NInf, NInf => true
  | _, _ => false
  end.

(** [Math.max] of two arguments, and of a spread array
    ([Math.max()] is -Infinity, any NaN gives NaN). *)
Definition js_max2 (a b : jsnum) : jsnum :=
  match a, b with
  | NaN, _ | _, NaN => NaN
  | _, _ => if js_lt a b then b else a
  end.

Definition mathMax (l : list jsnum) : jsnum := fold_left js_max2 l NInf.

(** ToBoolean on a number, and [a || b]. *)
Definition truthy (a : jsnum) : bool :=
  match a with
  | NaN => false
  | Fin x => negb (Qeq_bool x 0)
  | _ => true
  end.

Definition js_or (a b : jsnum) : jsnum := if truthy a then a else b.

Definition zStr (z : Z) : string := natStr (Z.to_nat z).

Fixpoint zeros (n : nat) : string :=
  match n with
  | O => EmptyString
  | S k => String "0"%char (zeros k)
  end.

Definition padLeft (width : nat) (s : string) : string :=
  zeros (width - String.length s) ++ s.

(** [Number.prototype.toFixed(d)]: the nearest multiple of 10^-d, the larger
    one on a tie, in plain decimal.  The code prints so below 10^21 in
    magnitude and turns to exponent notation from there on, a case that is
    left out here. *)
Definition toFixed (d : nat) (x : jsnum) : string :=
  match x with
  | NaN => "NaN"
  | PInf => "Infinity"
  | NInf => "-Infinity"
  | Fin q =>
      let scale := (10 ^ Z.of_nat d)%Z in
      let n := Qfloor (Qabs q * inject_Z scale + (1 # 2)) in
      (match qsign q with Lt => "-" | _ => EmptyString end)
        ++ zStr (n / scale)
        ++ (match d with
            | O => EmptyString
            | _ => "." ++ padLeft d (zStr (n mod scale))
            end)
  end.

(** *** [parseFloat] *)

Definition isDigit (c : ascii) : bool :=
  let n := nat_of_ascii c in ((48 <=? n) && (n <=? 57))%nat.

Definition digitVal (c : ascii) : Z := Z.of_nat (nat_of_ascii c) - 48.

(** Reads a maximal run of decimal digits: its value on top of [acc], the
    number of digits read, and the rest of the string. *)
Fixpoint readDigits (s : string) (acc : Z) (cnt : nat) : Z * nat * string :=
  match s with
  | String c r =>
      if isDigit c then readDigits r (acc * 10 + digitVal c)%Z (S cnt)
      else (acc, cnt, s)
  | EmptyString => (acc, cnt, s)
  end.

(** The optional ExponentPart; without a digit after [e] there is none. *)
Definition readExponent (s : string) : Z :=
  match s with
  | String c r =>
      if (Ascii.eqb c "e" || Ascii.eqb c "E")%bool then
        let '(neg, r1) :=
          match r with
          | String "-"%char r' => (true, r')
          | String "+"%char r' => (false, r')
          | _ => (false, r)
          end in
        let '(v, n, _) := readDigits r1 0%Z O in
        match n with
        | O => 0%Z
        | _ => if neg then (- v)%Z else v
        end
      else 0%Z
  | EmptyString => 0%Z
  end.

(** [m * 10^e] as a reduced fraction. *)
Definition scale10 (m e : Z) : Q :=
  match e with
  | Zneg p => Qred (m # (10 ^ p)%positive)
  | _ => inject_Z (m * 10 ^ e)
  end.

(** [parseFloat]: leading white space is skipped, then the longest prefix
    that is a StrDecimalLiteral is read; NaN when there is none.  The value
    is the decimal that was read; the code holds the binary64 number nearest
    to it, an infinity when the decimal is past the largest one. *)
Definition parseFloat (s : string) : jsnum :=
  let s1 := trimStart s in
  let '(neg, s2) :=
    match s1 with
    | String "-"%char r => (true, r)
    | String "+"%char r => (false, r)
    | _ => (false, s1)
    end in
  if String.prefix "Infinity" s2 then (if neg then NInf else PInf)
  else
    let '(ip, ni, r1) := readDigits s2 0%Z O in
    let '(m, nf, r2) :=
      match r1 with
      | String "."%char r => readDigits r ip O
      | _ => (ip, O, r1)
      end in
    match ni, nf with
    | O, O => NaN
    | _, _ =>
        let e := (readExponent r2 - Z.of_nat nf)%Z in
        Fin (scale10 (if neg then - m else m)%Z e)
    end.

(* ================================================================== *)
(** ** [parseLogFile] *)

Record ProcessData : Type := mkProcessData {
  timestamps : list string;
  rss : list jsnum
}.

(** [Map<string, ProcessData>], in insertion order. *)
Definition ProcessMap : Type := list (string * ProcessData).

Fixpoint mapHas (k : string) (m : ProcessMap) : bool :=
  match m with
  | [] => false
  | (k', _) :: r => if String.eqb k' k then true else mapHas k r
  end.

Fixpoint mapGet (k : string) (m : ProcessMap) : option ProcessData :=
  match m with
  | [] => None
  | (k', v) :: r => if String.eqb k' k then Some v else mapGet k r
  end.

(** [Map.prototype.set]: a present key keeps its position. *)
Fixpoint mapSet (k : string) (v : ProcessData) (m : ProcessMap) : ProcessMap :=
  match m with
  | [] => [(k, v)]
  | (k', v') :: r =>
      if String.eqb k' k then (k', v) :: r else (k', v') :: mapSet k v r
  end.

(** [processes.get(k)!] followed by a mutation of the object it returns. *)
Fixpoint mapModify (k : string) (f : ProcessData -> ProcessData)
                   (m : ProcessMap) : ProcessMap :=
  match m with
  | [] => []
  | (k', v) :: r =>
      if String.eqb k' k then (k', f v) :: r else (k', v) :: mapModify k f r
  end.

Definition pushTimestamp (t : string) (d : ProcessData) : ProcessData :=
  mkProcessData (timestamps d ++ [t]) (rss d).

Definition pushRss (v : jsnum) (d : ProcessData) : ProcessData :=
  mkProcessData (timestamps d) (rss d ++ [v]).

(** [Set.prototype.add], the set kept in insertion order. *)
Definition setAdd (x : string) (s : list string) : list string :=
  if includes x s then s else s ++ [x].

(** The two accumulators of [parseLogFile]. *)
Record ParseState : Type := mkParseState {
  st_processes : ProcessMap;
  st_timestamps : list string
}.

Definition initState : ParseState := mkParseState [] [].

(** The six trimmed fields of a line produce one sample. *)
Definition addSample (st : ParseState) (timestamp pid name rssField : string)
  : ParseState :=
  let rssValue := parseFloat (removeFirst "MB" rssField) in
  let processKey := pid ++ "-" ++ name in
  let p1 := if mapHas processKey (st_processes st) then st_processes st
            else mapSet processKey (mkProcessData [] []) (st_processes st) in
  let p2 := mapModify processKey (pushTimestamp timestamp) p1 in
  let p3 := mapModify processKey (pushRss rssValue) p2 in
  mkParseState p3 (setAdd timestamp (st_timestamps st)).

(** The body of the [forEach] over the lines. *)
Definition parseLine (st : ParseState) (line : string) : ParseState :=
  let parts := split "|" (trim line) in
  if negb (List.length parts =? 6)%nat then st
  else match map trim parts with
       | [timestamp; pid; name; heapUsed; heapCap; rssField] =>
           addSample st timestamp pid name rssField
       | _ => st
       end.

Definition parseLines (lines : list string) : ParseState :=
  fold_left parseLine (skipn 2 lines) initState.

Definition finish (st : ParseState) : ProcessMap * list string :=
  (st_processes st, sortStrings (st_timestamps st)).

(** [parseLogFile], from the text that [readFileSync] returns. *)
Definition parseLogFile (content : string) : ProcessMap * list string :=
  finish (parseLines (split (ascii_of_nat 10) content)).

(* ================================================================== *)
(** ** [generateMermaidChart] *)

Fixpoint filterIdxFrom {A : Type} (f : A -> nat -> bool) (i : nat)
                       (l : list A) : list A :=
  match l with
  | [] => []
  | x :: r =>
      if f x i then x :: filterIdxFrom f (S i) r else filterIdxFrom f (S i) r
  end.

Fixpoint mapIdxFrom {A B : Type} (f : A -> nat -> B) (i : nat)
                    (l : list A) : list B :=
  match l with
  | [] => []
  | x :: r => f x i :: mapIdxFrom f (S i) r
  end.

(** [filter] and [map] with the callback's index argument. *)
Definition filterIdx {A : Type} (f : A -> nat -> bool) (l : list A) : list A :=
  filterIdxFrom f 0 l.

Definition mapIdx {A B : Type} (f : A -> nat -> B) (l : list A) : list B :=
  mapIdxFrom f 0 l.

Definition targetPoints (n : nat) : nat :=
  if (n <? 30)%nat then n else if (n <? 100)%nat then 20%nat else 30%nat.

Definition interval (n : nat) : jsnum :=
  js_ceil (js_div (numNat n) (numNat (targetPoints n))).

Definition sampledTimestamps (ts : list string) : list string :=
  filterIdx
    (fun _ i => js_strict_eq (js_rem (numNat i) (interval (List.length ts)))
                             (numZ 0))
    ts.

(** [p.rss[idx]]: [None] stands for [undefined]. *)
Definition rssAt (p : ProcessData) (idx : Z) : option jsnum :=
  if (idx <? 0)%Z then None else nth_error (rss p) (Z.to_nat idx).

(** [sum + v], where [undefined] turns the sum into NaN. *)
Definition addValue (sum : jsnum) (v : option jsnum) : jsnum :=
  match v with
  | Some x => js_add sum x
  | None => NaN
  end.

(** The callback that both renderers map over their timestamps. *)
Definition aggregateAt (processes : ProcessMap) (timestamp : string) : jsnum :=
  fold_left
    (fun sum p => addValue sum (rssAt p (indexOf timestamp (timestamps p))))
    (filter (fun p => includes timestamp (timestamps p)) (map snd processes))
    (numZ 0).

Fixpoint allSome {A : Type} (l : list (option A)) : option (list A) :=
  match l with
  | [] => Some []
  | None :: _ => None
  | Some x :: r =>
      match allSome r with
      | Some r' => Some (x :: r')
      | None => None
      end
  end.

(** The identifier of a process node in the subgraph of index [i]. *)
Definition nodeId (key : string) (i : nat) : string :=
  cleanKey key ++ "_" ++ natStr i.

Definition aggId (i : nat) : string := "Agg_" ++ natStr i.

(** One process inside one subgraph: the empty string when the series has no
    entry at the timestamp, [None] when [toFixed] is called on [undefined]. *)
Definition nodeCell (timestamp : string) (i : nat)
                    (entry : string * ProcessData) : option string :=
  let '(key, data) := entry in
  let idx := indexOf timestamp (timestamps data) in
  if (idx =? -1)%Z then Some EmptyString
  else match rssAt data idx with
       | None => None
       | Some v =>
           Some ("        " ++ nodeId key i ++ "[" ++ dq ++ key ++ "<br/>"
                 ++ toFixed 0 v ++ "MB" ++ dq ++ "]")
       end.

Definition subgraph (processes : ProcessMap) (aggregatedRss : list jsnum)
                    (timestamp : string) (i : nat) : option string :=
  match allSome (map (nodeCell timestamp i) processes),
        nth_error aggregatedRss i with
  | Some cells, Some agg =>
      Some ("    subgraph T" ++ natStr i ++ "[" ++ dq ++ timestamp ++ dq ++ "]"
            ++ nl ++ "            "
            ++ join (nl ++ "        ") (filterBoolean cells)
            ++ nl ++ "            "
            ++ ("        " ++ aggId i ++ "[" ++ dq ++ "Aggregated<br/>"
                ++ toFixed 0 agg ++ "MB" ++ dq ++ "]")
            ++ nl ++ "        end")
  | _, _ => None
  end.

(** [data.timestamps.indexOf(sampledTimestamps[j])]. *)
Definition indexOfSampled (sampled : list string) (j : nat)
                          (data : ProcessData) : Z :=
  match nth_error sampled j with
  | Some t => indexOf t (timestamps data)
  | None => (-1)%Z
  end.

(** The sequential edge of one series into the sampled index [i]. *)
Definition edgeCell (sampled : list string) (entry : string * ProcessData)
                    (timestamp : string) (i : nat) : string :=
  let '(key, data) := entry in
  match i with
  | O => EmptyString
  | S j =>
      let prevIdx := indexOfSampled sampled j data in
      let currIdx := indexOf timestamp (timestamps data) in
      if ((prevIdx =? -1) || (currIdx =? -1))%Z then EmptyString
      else "    " ++ nodeId key j ++ " --> " ++ nodeId key i
  end.

Definition seriesEdgeCells (sampled : list string)
                           (entry : string * ProcessData) : list string :=
  mapIdx (edgeCell sampled entry) sampled.

Definition seriesEdges (sampled : list string)
                       (entry : string * ProcessData) : list string :=
  filterBoolean (seriesEdgeCells sampled entry).

Definition aggEdgeCell (_ : string) (i : nat) : string :=
  match i with
  | O => EmptyString
  | S j => "    " ++ aggId j ++ " --> " ++ aggId i
  end.

Definition aggEdgeCells (sampled : list string) : list string :=
  mapIdx aggEdgeCell sampled.

Definition aggEdges (sampled : list string) : list string :=
  filterBoolean (aggEdgeCells sampled).

(** The [class] statements: one per key, one per sampled index. *)
Definition processClassLines (processes : ProcessMap) : list string :=
  map (fun key => "class " ++ cleanKey key ++ " process") (map fst processes).

Definition aggClassLines (sampled : list string) : list string :=
  mapIdx (fun _ i => "class " ++ aggId i ++ " aggregated") sampled.

Definition generateMermaidChart (processes : ProcessMap) (ts : list string)
  : option string :=
  let sampled := sampledTimestamps ts in
  let aggregatedRss := map (aggregateAt processes) sampled in
  match allSome (mapIdx (subgraph processes aggregatedRss) sampled) with
  | None => None
  | Some subgraphs =>
      Some ("%%{init: {'theme': 'dark'}}%%" ++ nl
        ++ "flowchart LR" ++ nl
        ++ "    subgraph Time[" ++ dq ++ "Memory Usage Over Time" ++ dq ++ "]"
        ++ nl
        ++ "        direction TB" ++ nl
        ++ "        " ++ join (nl ++ "        ") subgraphs ++ nl
        ++ "    end" ++ nl
        ++ nl
        ++ "    "
        ++ join (nl ++ "    ")
             (map (fun e => join (nl ++ "    ") (seriesEdges sampled e))
                  processes)
        ++ nl
        ++ nl
        ++ "    " ++ join (nl ++ "    ") (aggEdges sampled) ++ nl
        ++ "    " ++ nl
        ++ "    classDef process fill:#4ECDC4,stroke:#333,stroke-width:2px"
        ++ nl
        ++ "    classDef aggregated fill:#FF6B6B,stroke:#333,stroke-width:2px"
        ++ nl
        ++ "    " ++ join (nl ++ "    ") (processClassLines processes) ++ nl
        ++ "    " ++ join (nl ++ "    ") (aggClassLines sampled))
  end.

(* ================================================================== *)
(** ** [generateSvg]

    The chart is kept as the values its markup is instantiated with; the
    markup around them is constant text. *)

Definition width : jsnum := numZ 1400.
Definition height : jsnum := numZ 800.
Definition margin_top : jsnum := numZ 60.
Definition margin_right : jsnum := numZ 300.
Definition margin_bottom : jsnum := numZ 100.
Definition margin_left : jsnum := numZ 100.

Definition colors : list string :=
  ["#FF9B9B"; "#4ECDC4"; "#45B7D1"; "#96CEB4"; "#FFEEAD"; "#D4A5A5"].

Definition gridInterval : jsnum := numZ 500.

Definition svgAggregatedRss (processes : ProcessMap) (ts : list string)
  : list jsnum :=
  map (aggregateAt processes) ts.

(** [Array.from(processes.values()).flatMap(p => p.rss)]. *)
Definition allRss (processes : ProcessMap) : list jsnum :=
  flat_map rss (map snd processes).

Definition maxIndividualRss (processes : ProcessMap) : jsnum :=
  mathMax (allRss processes).

Definition maxAggregatedRss (processes : ProcessMap) (ts : list string)
  : jsnum :=
  mathMax (svgAggregatedRss processes ts).

Definition maxRss (processes : ProcessMap) (ts : list string) : jsnum :=
  mathMax [maxIndividualRss processes; maxAggregatedRss processes ts].

Definition yAxisMax (processes : ProcessMap) (ts : list string) : jsnum :=
  js_mul (js_ceil (js_div (maxRss processes ts) (numZ 1000))) (numZ 1000).

Definition xScale (ts : list string) : jsnum :=
  js_or (js_div (js_sub (js_sub width margin_left) margin_right)
                (js_sub (numNat (List.length ts)) (numZ 1)))
        (numZ 1).

Definition yScale (processes : ProcessMap) (ts : list string) : jsnum :=
  js_div (js_sub (js_sub height margin_top) margin_bottom)
         (yAxisMax processes ts).

(** [for (let i = start; cond(i); i = step(i)) out.push(body(i))].
    [None] when the fuel does not cover the iterations. *)
Fixpoint forLoop {A : Type} (fuel : nat) (cond : jsnum -> bool)
                 (step : jsnum -> jsnum) (body : jsnum -> A) (i : jsnum)
  : option (list A) :=
  if cond i then
    match fuel with
    | O => None
    | S f =>
        match forLoop f cond step body (step i) with
        | Some r => Some (body i :: r)
        | None => None
        end
    end
  else Some [].

(** The vertical position of the value [v]. *)
Definition yOf (ys v : jsnum) : jsnum :=
  js_sub (js_sub height margin_bottom) (js_mul v ys).

Definition xOf (xs i : jsnum) : jsnum := js_add margin_left (js_mul i xs).

(** The grid lines, and again the axis labels: the value and its [y]. *)
Definition gridLines (fuel : nat) (yMax ys : jsnum)
  : option (list (jsnum * jsnum)) :=
  forLoop fuel (fun i => js_le i yMax) (fun i => js_add i gridInterval)
          (fun i => (i, yOf ys i)) (numZ 0).

(** [timestamps[i]] for a loop counter. *)
Definition nthNum (l : list string) (i : jsnum) : option string :=
  match i with
  | Fin q =>
      if (Zpos (Qden q) =? 1)%Z && (0 <=? Qnum q)%Z
      then nth_error l (Z.to_nat (Qnum q)) else None
  | _ => None
  end.

Definition labelInterval (ts : list string) : jsnum :=
  js_ceil (js_div (numNat (List.length ts)) (numZ 15)).

Definition xLabels (fuel : nat) (ts : list string) (xs : jsnum)
  : option (list (jsnum * option string)) :=
  forLoop fuel (fun i => js_lt i (numNat (List.length ts)))
          (fun i => js_add i (labelInterval ts))
          (fun i => (xOf xs i, nthNum ts i)) (numZ 0).

Record Polyline : Type := mkPolyline {
  pl_key : string;
  pl_points : list (jsnum * jsnum);
  pl_color : option string;
  pl_legendY : jsnum
}.

(** [undefined * yScale] is NaN. *)
Definition undefNum (v : option jsnum) : jsnum :=
  match v with Some x => x | None => NaN end.

Definition polyline (ts : list string) (xs ys : jsnum)
                    (entry : string * ProcessData) (idx : nat) : Polyline :=
  let '(key, data) := entry in
  mkPolyline key
    (mapIdx (fun timestamp i =>
               (xOf xs (numZ (indexOf timestamp ts)),
                yOf ys (undefNum (nth_error (rss data) i))))
            (timestamps data))
    (nth_error colors (idx mod List.length colors))
    (js_add (js_add margin_top (numZ 30)) (js_mul (numNat idx) (numZ 30))).

Record SvgChart : Type := mkSvgChart {
  svg_yAxisMax : jsnum;
  svg_xScale : jsnum;
  svg_yScale : jsnum;
  svg_gridLines : list (jsnum * jsnum);
  svg_yLabels : list (jsnum * jsnum);
  svg_xLabels : list (jsnum * option string);
  svg_legendHeight : jsnum;
  svg_polylines : list Polyline;
  svg_aggregatedPoints : list (jsnum * jsnum);
  svg_aggLegendY : jsnum
}.

Definition generateSvg (fuel : nat) (processes : ProcessMap)
                       (ts : list string) : option SvgChart :=
  let aggregatedRss := svgAggregatedRss processes ts in
  let yMax := yAxisMax processes ts in
  let xs := xScale ts in
  let ys := yScale processes ts in
  match gridLines fuel yMax ys, gridLines fuel yMax ys, xLabels fuel ts xs with
  | Some grid, Some ylab, Some xlab =>
      Some (mkSvgChart yMax xs ys grid ylab xlab
              (js_add (js_mul (numNat (List.length processes)) (numZ 30))
                      (numZ 40))
              (mapIdx (polyline ts xs ys) processes)
              (mapIdx (fun _ i => (xOf xs (numNat i),
                                   yOf ys (undefNum (nth_error aggregatedRss i))))
                      ts)
              (js_add (js_add margin_top (numZ 30))
                      (js_mul (numNat (List.length processes)) (numZ 30))))
  | _, _, _ => None
  end.

(* ================================================================== *)
(** ** The summary written by [run] *)

Definition summaryMaxRss (processes : ProcessMap) : jsnum :=
  mathMax (allRss processes).

Definition duration (ts : list string) : string :=
  match ts with
  | [] => "N/A"
  | first :: _ => "from " ++ first ++ " to " ++ last ts EmptyString
  end.

(** [x.toFixed(2)] where [x] may be [undefined]. *)
Definition toFixed2 (v : option jsnum) : option string :=
  match v with
  | Some x => Some (toFixed 2 x)
  | None => None
  end.

Definition avgRss (data : ProcessData) : jsnum :=
  js_div (fold_left js_add (rss data) (numZ 0))
         (numNat (List.length (rss data))).

(** [data.rss[data.rss.length - 1]]. *)
Definition lastRss (data : ProcessData) : option jsnum :=
  match rss data with
  | [] => None
  | _ => nth_error (rss data) (List.length (rss data) - 1)
  end.

Definition processDetails (entry : string * ProcessData) : option string :=
  let '(key, data) := entry in
  match toFixed2 (lastRss data) with
  | None => None
  | Some lastText =>
      Some ("#### " ++ key ++ nl
        ++ "- Maximum RSS: " ++ toFixed 2 (mathMax (rss data)) ++ " MB" ++ nl
        ++ "- Average RSS: " ++ toFixed 2 (avgRss data) ++ " MB" ++ nl
        ++ "- Number of measurements: " ++ natStr (List.length (rss data)) ++ nl
        ++ "- Last measurement: " ++ lastText ++ " MB")
  end.

Definition overview (processes : ProcessMap) (ts : list string) : string :=
  "### Overview" ++ nl
  ++ "- Number of processes monitored: " ++ natStr (List.length processes) ++ nl
  ++ "- Maximum RSS observed: " ++ toFixed 2 (summaryMaxRss processes) ++ " MB"
  ++ nl
  ++ "- Monitoring duration: " ++ duration ts ++ nl.

Definition newSummary (summary mermaidChart : string) (processes : ProcessMap)
                      (ts : list string) : option string :=
  match allSome (map processDetails processes) with
  | None => None
  | Some details =>
      Some (summary ++ nl
        ++ nl
        ++ "## Build Process Analysis" ++ nl
        ++ nl
        ++ "### Build Process Graph" ++ nl
        ++ bq ++ bq ++ bq ++ "mermaid" ++ nl
        ++ mermaidChart ++ nl
        ++ bq ++ bq ++ bq ++ nl
        ++ nl
        ++ overview processes ts
        ++ nl
        ++ nl
        ++ nl
        ++ "### Process Details" ++ nl
        ++ join (nl ++ nl) details ++ nl
        ++ nl
        ++ "> Note: A detailed SVG graph and log file are available in the artifacts of this workflow run.")
  end.

(** What [run] computes from the log text: both charts, then the summary.
    [None] when a step throws or the fuel runs out. *)
Definition render (fuel : nat) (summary content : string)
  : option (string * SvgChart * string) :=
  let '(processes, ts) := parseLogFile content in
  match generateMermaidChart processes ts with
  | None => None
  | Some mermaidChart =>
      match generateSvg fuel processes ts with
      | None => None
      | Some svgContent =>
          match newSummary summary mermaidChart processes ts with
          | None => None
          | Some text => Some (mermaidChart, svgContent, text)
          end
      end
  end.

(* ================================================================== *)
(** ** [monitor.sh]: what the sampler writes *)

(** [printf "%02d"] on a number that is not negative. *)
Definition pad2 (n : nat) : string :=
  if (n <? 10)%nat then "0" ++ natStr n else natStr n.

(** [TIMESTAMP], from [ELAPSED_TIME], the seconds since the start, which
    the script computes as the difference of two readings of the clock and
    which is taken here as not negative. *)
Definition formatTimestamp (elapsed : nat) : string :=
  pad2 (elapsed / 3600) ++ ":" ++ pad2 (elapsed mod 3600 / 60) ++ ":"
  ++ pad2 (elapsed mod 60).

(** The two lines written before the main loop. *)
Definition logHeader (date : string) : string :=
  "Starting memory monitor at " ++ date ++ nl
  ++ "Elapsed_Time | PID | Name | Heap_Used_MB | Heap_Capacity_MB | RSS_MB"
  ++ nl.

(** The text that [echo] writes for one process, before the newline. *)
Definition logRecord (timestamp pid name heapUsed heapCap rssMb : string)
  : string :=
  timestamp ++ " | " ++ pid ++ " | " ++ name ++ " | " ++ heapUsed ++ "MB | "
  ++ heapCap ++ "MB | " ++ rssMb ++ "MB".

(** [echo ... >> "$LOG_FILE"]. *)
Definition appendRecord (log record : string) : string := log ++ record ++ nl.

(* ================================================================== *)
(** ** Vocabulary of the specification *)

(** The Series invariant: as many values as timestamps. *)
Definition wfData (p : ProcessData) : Prop :=
  List.length (timestamps p) = List.length (rss p).

Definition wfMap (processes : ProcessMap) : Prop :=
  Forall (fun e => wfData (snd e)) processes.

Definition isFin (a : jsnum) : Prop := exists q, a = Fin q.

(** The value a Series holds at a timestamp: that of its first entry there. *)
Fixpoint entryAt (t : string) (tss : list string) (vs : list jsnum)
  : option jsnum :=
  match tss, vs with
  | t' :: tr, v :: vr => if String.eqb t' t then Some v else entryAt t tr vr
  | _, _ => None
  end.

(** What a Series adds to the aggregate at a timestamp. *)
Definition contribution (t : string) (p : ProcessData) : jsnum :=
  match entryAt t (timestamps p) (rss p) with
  | Some v => v
  | None => numZ 0
  end.

(** ceiling(n / d) on the naturals. *)
Definition ceilDiv (n d : nat) : nat := ((n + d - 1) / d)%nat.

Definition stride (n : nat) : nat := ceilDiv n (targetPoints n).

(** The elements of [l] at the indices 0, s, 2s, ... *)
Definition everyNth (s : nat) (l : list string) : list string :=
  map (fun k => nth (k * s) l EmptyString)
      (seq 0 (ceilDiv (List.length l) s)).

Definition sixFields (line : string) : bool :=
  (List.length (split "|" (trim line)) =? 6)%nat.

(** Two lines that are equal, or that both split into six fields and agree
    on the first three and on the last. *)
Definition heapVariant (l1 l2 : string) : Prop :=
  l1 = l2 \/
  exists a b c d e f d' e',
    split "|" (trim l1) = [a; b; c; d; e; f] /\
    split "|" (trim l2) = [a; b; c; d'; e'; f].

(** The multiples of 500 from 0 to [1000 * c]. *)
Definition gridValues (c : Z) : list jsnum :=
  map (fun k => numZ (500 * Z.of_nat k)) (seq 0 (Z.to_nat (2 * c + 1))).

(** A finite value that is zero or of magnitude between 2^-1000 and 2^52.
    In this range the quotient by 1000 does not underflow in binary64, and
    the product by 1000 and the counter of the grid loop are integers that
    binary64 holds exactly. *)
Definition withinRange (v : jsnum) : Prop :=
  exists q : Q,
    v = Fin q
    /\ (Qabs q <= inject_Z (2 ^ 52))%Q
    /\ (q == 0 \/ (1 # 2 ^ 1000) <= Qabs q)%Q.

(** What the specification states of the vertical axis: the largest value m
    of the Series and of the aggregate, the maximum 1000 * ceiling(m / 1000),
    and, once the fuel covers the two loops, a chart whose grid lines are one
    per multiple of 500 from 0 to the maximum. *)
Definition yAxisAsSpecified (processes : ProcessMap) (ts : list string)
  : Prop :=
  exists m : Q,
    maxRss processes ts = Fin m
    /\ In (Fin m) (allRss processes ++ svgAggregatedRss processes ts)
    /\ (forall x,
          In (Fin x) (allRss processes ++ svgAggregatedRss processes ts) ->
          (x <= m)%Q)
    /\ yAxisMax processes ts = numZ (Qceiling (m / inject_Z 1000) * 1000)
    /\ forall fuel : nat,
         (Z.to_nat (2 * Qceiling (m / inject_Z 1000) + 1) <= fuel)%nat ->
         (List.length ts <= fuel)%nat ->
         exists chart : SvgChart,
           generateSvg fuel processes ts = Some chart
           /\ svg_yAxisMax chart = yAxisMax processes ts
           /\ svg_gridLines chart
              = map (fun v => (v, yOf (yScale processes ts) v))
                    (gridValues (Qceiling (m / inject_Z 1000))).

(** The text of the sequential edge from index [j] to index [S j]. *)
Definition seriesEdgeText (key : string) (j : nat) : string :=
  "    " ++ nodeId key j ++ " --> " ++ nodeId key (S j).

Definition aggEdgeText (j : nat) : string :=
  "    " ++ aggId j ++ " --> " ++ aggId (S j).

(** The downsampled timeline is not empty, starts with the first timestamp
    and has at most ceiling(n / stride) elements. *)
Definition startsAtFirst (ts : list string) : Prop :=
  exists first rest,
    sampledTimestamps ts = first :: rest /\
    nth_error ts 0 = Some first /\
    (List.length (sampledTimestamps ts)
     <= ceilDiv (List.length ts) (stride (List.length ts)))%nat.

(** *** Sample logs *)

Definition header : string :=
  "Starting memory monitor at Mon Jan 1 00:00:00 UTC 2024" ++ nl
  ++ "Elapsed_Time | PID | Name | Heap_Used_MB | Heap_Capacity_MB | RSS_MB"
  ++ nl.

Definition twoDaemonsLog : string :=
  header
  ++ "00:00:00 | 101 | DaemonA | 10.0MB | 20.0MB | 100.0MB" ++ nl
  ++ "00:00:00 | 202 | DaemonB | 10.0MB | 20.0MB | 50.0MB" ++ nl
  ++ "00:00:05 | 101 | DaemonA | 10.0MB | 20.0MB | 150.0MB" ++ nl
  ++ "00:00:05 | 202 | DaemonB | 10.0MB | 20.0MB | 50.0MB" ++ nl
  ++ "00:00:10 | 101 | DaemonA | 10.0MB | 20.0MB | 200.0MB" ++ nl.

Definition twoDaemons : ProcessMap :=
  [("101-DaemonA",
    mkProcessData ["00:00:00"; "00:00:05"; "00:00:10"]
                  [numZ 100; numZ 150; numZ 200]);
   ("202-DaemonB",
    mkProcessData ["00:00:00"; "00:00:05"] [numZ 50; numZ 50])].

Definition twoDaemonsTimeline : list string :=
  ["00:00:00"; "00:00:05"; "00:00:10"].

(** The same samples with other heap readings. *)
Definition twoDaemonsLogHeap : string :=
  header
  ++ "00:00:00 | 101 | DaemonA | 77.7MB | 88.8MB | 100.0MB" ++ nl
  ++ "00:00:00 | 202 | DaemonB | 1.5MB | 2.5MB | 50.0MB" ++ nl
  ++ "00:00:05 | 101 | DaemonA | 0.0MB |  | 150.0MB" ++ nl
  ++ "00:00:05 | 202 | DaemonB | 10.0MB | 20.0MB | 50.0MB" ++ nl
  ++ "00:00:10 | 101 | DaemonA | x | y | 200.0MB" ++ nl.

Definition goodLineA : string :=
  "00:00:00 | 101 | DaemonA | 10.0MB | 20.0MB | 100.0MB".
Definition fiveFieldLine : string :=
  "00:00:05 | 101 | DaemonA | 10.0MB | 150.0MB".
Definition goodLineB : string :=
  "00:00:10 | 101 | DaemonA | 10.0MB | 20.0MB | 200.0MB".

Definition gapLog : string :=
  header ++ goodLineA ++ nl ++ fiveFieldLine ++ nl ++ goodLineB ++ nl.

Definition headerOnlyLog : string := header.

Definition singleSampleLog : string := header ++ goodLineA ++ nl.

Definition peakLog : string :=
  header
  ++ "00:00:00 | 101 | DaemonA | 10.0MB | 20.0MB | 1200.0MB" ++ nl
  ++ "00:00:00 | 202 | DaemonB | 10.0MB | 20.0MB | 1100.0MB" ++ nl
  ++ "00:00:05 | 101 | DaemonA | 10.0MB | 20.0MB | 900.5MB" ++ nl.

(** A timeline of [n] distinct labels, the label of index [i] being [i]. *)
Definition labels (n : nat) : list string := map natStr (seq 0 n).

(* ================================================================== *)
(** ** Vocabulary of the further properties *)

(** What one line of the log contributes. *)
Record Sample : Type := mkSample {
  s_timestamp : string;
  s_key : string;
  s_rss : jsnum
}.

Definition sampleOfLine (line : string) : option Sample :=
  match split "|" (trim line) with
  | [a; b; c; d; e; f] =>
      Some (mkSample (trim a) (trim b ++ "-" ++ trim c)
                     (parseFloat (removeFirst "MB" (trim f))))
  | _ => None
  end.

Definition samplesOf (lines : list string) : list Sample :=
  flat_map (fun l => match sampleOfLine l with
                     | Some s => [s]
                     | None => []
                     end)
           lines.

(** The samples of the data lines of a log. *)
Definition samplesOfLog (content : string) : list Sample :=
  samplesOf (skipn 2 (split (ascii_of_nat 10) content)).

(** The samples of one key, in the order of the log, as a Series. *)
Definition seriesOf (k : string) (l : list Sample) : option ProcessData :=
  match filter (fun s => String.eqb (s_key s) k) l with
  | [] => None
  | kept => Some (mkProcessData (map s_timestamp kept) (map s_rss kept))
  end.

(** The elements of a list in the order of their first occurrence. *)
Definition firstOccurrences (l : list string) : list string :=
  fold_left (fun acc x => setAdd x acc) l [].

(** The state the parser reaches on the samples [l]. *)
Definition holds (l : list Sample) (st : ParseState) : Prop :=
  (forall k, mapGet k (st_processes st) = seriesOf k l)
  /\ map fst (st_processes st) = firstOccurrences (map s_key l)
  /\ st_timestamps st = firstOccurrences (map s_timestamp l).

(** Strictly before, in code-unit order. *)
Definition strLt (a b : string) : Prop := String.compare a b = Lt.

(** The number of measurements held by all the Series together. *)
Definition totalMeasurements (processes : ProcessMap) : nat :=
  list_sum (map (fun e => List.length (rss (snd e))) processes).

(** The code units of an identifier: letters, digits and the underscore. *)
Fixpoint identChars (s : string) : bool :=
  match s with
  | EmptyString => true
  | String c r => (isAlnum c || Ascii.eqb c "_"%char) && identChars r
  end.

(** A log whose last line was cut after the fifth pipe. *)
Definition truncatedLog : string :=
  header ++ goodLineA ++ nl ++ "00:00:05 | 101 | DaemonA | 10.0MB | 20.0MB | ".

(** A log with a record whose resident size reads Infinity. *)
Definition infinityLog : string :=
  header ++ "00:00:00 | 101 | DaemonA | 10.0MB | 20.0MB | InfinityMB" ++ nl.


(** No occurrence of the code unit [c]. *)
Fixpoint noChar (c : ascii) (s : string) : bool :=
  match s with
  | EmptyString => true
  | String x r => negb (Ascii.eqb x c) && noChar c r
  end.

Fixpoint noWhite (s : string) : bool :=
  match s with
  | EmptyString => true
  | String x r => negb (isWhiteSpace x) && noWhite r
  end.

(** A field as [awk '{print $1}'] and [printf] produce them: not empty,
    without white space and without pipe. *)
Definition token (s : string) : Prop :=
  s <> EmptyString /\ noWhite s = true /\ noChar "|" s = true.

(** What the sampler read for one process at one tick. *)
Record Reading : Type := mkReading {
  r_timestamp : string;
  r_pid : string;
  r_name : string;
  r_heapUsed : string;
  r_heapCap : string;
  r_rss : string
}.

Definition recordOf (r : Reading) : string :=
  logRecord (r_timestamp r) (r_pid r) (r_name r) (r_heapUsed r) (r_heapCap r)
            (r_rss r).

Definition sampleOfReading (r : Reading) : Sample :=
  mkSample (r_timestamp r) (r_pid r ++ "-" ++ r_name r) (parseFloat (r_rss r)).

Definition wellFormed (r : Reading) : Prop :=
  token (r_timestamp r) /\ token (r_pid r) /\ token (r_name r)
  /\ noChar "|" (r_heapUsed r) = true
  /\ noChar (ascii_of_nat 10) (r_heapUsed r) = true
  /\ noChar "|" (r_heapCap r) = true
  /\ noChar (ascii_of_nat 10) (r_heapCap r) = true
  /\ token (r_rss r) /\ noChar "M" (r_rss r) = true.

(** The log after the sampler wrote the readings, in this order. *)
Definition writtenLog (date : string) (readings : list Reading) : string :=
  fold_left (fun log r => appendRecord log (recordOf r)) readings
            (logHeader date).

Definition digitChar (d : nat) : ascii := ascii_of_nat (48 + d).

(** The lines of a file, each closed by a newline. *)
Definition linesText (l : list string) : string :=
  fold_right (fun r acc => r ++ nl ++ acc) EmptyString l.

(** The text of the node of a Series in the subgraph of index [i]. *)
Definition nodeText (key : string) (i : nat) (v : jsnum) : string :=
  "        " ++ nodeId key i ++ "[" ++ dq ++ key ++ "<br/>" ++ toFixed 0 v
  ++ "MB" ++ dq ++ "]".

(** *** The lines of the diagram *)

(** The lines of a text. *)
Definition textLines (text : string) : list string :=
  split (ascii_of_nat 10) text.

(** The line of the edge from the node of index [j] of a Series to its node
    of index [k]. *)
Definition edgeLine (key : string) (j k : nat) : string :=
  "    " ++ "    " ++ nodeId key j ++ " --> " ++ nodeId key k.

(** The line of the edge from the aggregate node of index [j] to the next. *)
Definition aggEdgeLine (j : nat) : string := "    " ++ aggEdgeText j.

(** The Series has an entry at the sampled timestamps of indices [j] and [k]. *)
Definition entriesAt (sampled : list string) (data : ProcessData)
                     (j k : nat) : Prop :=
  exists tj tk,
    nth_error sampled j = Some tj /\ nth_error sampled k = Some tk
    /\ includes tj (timestamps data) = true
    /\ includes tk (timestamps data) = true.

(** A text without newline. *)
Definition oneLine (s : string) : Prop := noChar (ascii_of_nat 10) s = true.

(** The keys are sanitized to identifiers that differ from one another and
    from that of the aggregate nodes. *)
Definition distinctIdentifiers (processes : ProcessMap) : Prop :=
  NoDup (map (fun e => cleanKey (fst e)) processes)
  /\ Forall (fun e => cleanKey (fst e) <> "Agg") processes.

(** What the specification states of the edges: the diagram is returned; the
    line of an edge of a Series is in it exactly for two consecutive sampled
    timestamps at which the Series has an entry; the line of the edge of the
    aggregate is in it for every two consecutive sampled timestamps. *)
Definition edgesAsSpecified (processes : ProcessMap) (ts : list string)
  : Prop :=
  exists text,
    generateMermaidChart processes ts = Some text
    /\ (forall key data j k,
          In (key, data) processes ->
          (In (edgeLine key j k) (textLines text)
           <-> k = S j /\ entriesAt (sampledTimestamps ts) data j k))
    /\ (forall j,
          (S j < List.length (sampledTimestamps ts))%nat ->
          In (aggEdgeLine j) (textLines text)).

(** Two keys that are sanitized to the same identifier [1_A_B]; the second
    Series has no entry at the second timestamp. *)
Definition collidingKeys : ProcessMap :=
  [("1-A.B", mkProcessData ["00:00:00"; "00:00:05"] [numZ 10; numZ 20]);
   ("1-A_B", mkProcessData ["00:00:00"] [numZ 30])].

Definition collidingTimeline : list string := ["00:00:00"; "00:00:05"].

(* ================================================================== *)
(** * Properties *)

(** ** Arithmetic of [jsnum] on integers *)

Section IntegerArithmetic.

Lemma numZ_add (a b : Z) : js_add (numZ a) (numZ b) = numZ (a + b).
Proof.
  unfold numZ, js_add, inject_Z, Qplus; simpl.
  now rewrite !Z.mul_1_r.
Qed.

Lemma numZ_mul (a b : Z) : js_mul (numZ a) (numZ b) = numZ (a * b).
Proof. reflexivity. Qed.

Lemma js_add_0_r (a : jsnum) : js_add a (numZ 0) = a.
Proof.
  destruct a as [ | | | [n d]]; try reflexivity.
  unfold numZ, js_add, inject_Z, Qplus; simpl.
  now rewrite Z.mul_1_r, Z.add_0_r, Pos.mul_1_r.
Qed.

Lemma js_le_numZ (a b : Z) : js_le (numZ a) (numZ b) = (a <=? b)%Z.
Proof.
  unfold numZ, js_le, inject_Z, Qle_bool; simpl.
  now rewrite !Z.mul_1_r.
Qed.

Lemma qsign_pos (z : Z) : (0 < z)%Z -> qsign (inject_Z z) = Gt.
Proof. intros H. unfold qsign; simpl. now apply Z.compare_gt_iff. Qed.

(** Division of naturals followed by [Math.ceil]. *)
Lemma Qceiling_div (n d : Z) :
  (0 <= n)%Z -> (0 < d)%Z ->
  Qceiling (inject_Z n / inject_Z d) = ((n + d - 1) / d)%Z.
Proof.
  intros Hn Hd. unfold Qceiling.
  assert (E : (- (inject_Z n / inject_Z d) == inject_Z (- n) / inject_Z d)%Q).
  { rewrite inject_Z_opp. unfold Qdiv. ring. }
  rewrite E, <- Zdiv_Qdiv.
  pose proof (Z.mod_pos_bound (n + d - 1) d Hd) as B.
  pose proof (Z.div_mod (n + d - 1) d ltac:(lia)) as D.
  assert (K : ((- n) / d = - ((n + d - 1) / d))%Z).
  { symmetry.
    apply Z.div_unique with (r := (d - 1 - (n + d - 1) mod d)%Z); lia. }
  rewrite K. lia.
Qed.

(** [i % s === 0] on naturals. *)
Lemma rem_is_zero (i s : nat) :
  (1 <= s)%nat ->
  js_strict_eq (js_rem (numNat i) (numNat s)) (numZ 0) = (i mod s =? 0)%nat.
Proof.
  intros Hs. unfold numNat, numZ, js_rem.
  rewrite qsign_pos by lia. unfold js_strict_eq.
  assert (T : Qtrunc (inject_Z (Z.of_nat i) / inject_Z (Z.of_nat s))
              = (Z.of_nat i / Z.of_nat s)%Z).
  { rewrite Zdiv_Qdiv. unfold Qtrunc, Qfloor.
    destruct (inject_Z (Z.of_nat i) / inject_Z (Z.of_nat s))%Q as [a b] eqn:E.
    simpl. apply Z.quot_div_nonneg; [ | lia ].
    assert (P : (0 <= inject_Z (Z.of_nat i) / inject_Z (Z.of_nat s))%Q).
    { apply Qle_shift_div_l.
      - change 0%Q with (inject_Z 0). rewrite <- Zlt_Qlt. lia.
      - rewrite Qmult_0_l. change 0%Q with (inject_Z 0).
        rewrite <- Zle_Qle. lia. }
    rewrite E in P. unfold Qle in P. simpl in P. lia. }
  rewrite T.
  assert (R : (inject_Z (Z.of_nat i)
               - inject_Z (Z.of_nat s) * inject_Z (Z.of_nat i / Z.of_nat s)
               == inject_Z (Z.of_nat (i mod s)))%Q).
  { unfold Qminus.
    rewrite <- inject_Z_mult, <- inject_Z_opp, <- inject_Z_plus.
    apply inject_Z_injective.
    rewrite Nat2Z.inj_mod.
    pose proof (Z.div_mod (Z.of_nat i) (Z.of_nat s) ltac:(lia)). lia. }
  destruct (Nat.eqb_spec (i mod s) 0) as [Z0 | NZ].
  - apply Qeq_bool_iff. rewrite R, Z0. reflexivity.
  - apply not_true_is_false. intros C. apply Qeq_bool_iff in C.
    rewrite R in C. unfold Qeq in C. simpl in C. lia.
Qed.

Lemma targetPoints_pos (n : nat) : (1 <= n)%nat -> (1 <= targetPoints n)%nat.
Proof.
  intros H. unfold targetPoints.
  destruct (n <? 30)%nat; [ lia | ]. destruct (n <? 100)%nat; lia.
Qed.

Lemma interval_stride (n : nat) :
  (1 <= n)%nat -> interval n = numNat (stride n).
Proof.
  intros H. pose proof (targetPoints_pos n H) as T.
  unfold interval, numNat, numZ, js_div.
  rewrite qsign_pos by lia. unfold js_ceil, numZ.
  rewrite Qceiling_div by lia.
  unfold stride, ceilDiv.
  rewrite Nat2Z.inj_div, Nat2Z.inj_sub, Nat2Z.inj_add by lia.
  reflexivity.
Qed.

Lemma interval_zero : interval 0 = NaN.
Proof. reflexivity. Qed.

Lemma stride_pos (n : nat) : (1 <= n)%nat -> (1 <= stride n)%nat.
Proof.
  intros H. pose proof (targetPoints_pos n H) as T.
  unfold stride, ceilDiv.
  apply Nat.div_le_lower_bound; lia.
Qed.
End IntegerArithmetic.

(** ** Indexed filters and maps *)

Section IndexedLists.
Context {A B : Type}.

Lemma filterIdxFrom_ext (f g : A -> nat -> bool) (i : nat) (l : list A) :
  (forall x j, f x j = g x j) -> filterIdxFrom f i l = filterIdxFrom g i l.
Proof.
  intros E. revert i. induction l as [ | x r IH]; intros i; simpl.
  - reflexivity.
  - rewrite E, IH. reflexivity.
Qed.

(** A filter that looks at the index only keeps the elements whose index
    passes the test. *)
Lemma filterIdxFrom_seq (g : nat -> bool) (d : A) (l : list A) (i : nat) :
  filterIdxFrom (fun _ j => g j) i l
  = map (fun j => nth (j - i) l d) (filter g (seq i (List.length l))).
Proof.
  revert i. induction l as [ | x r IH]; intros i; simpl.
  - reflexivity.
  - assert (T : map (fun j => nth (j - S i) r d)
                    (filter g (seq (S i) (List.length r)))
                = map (fun j => nth (j - i) (x :: r) d)
                      (filter g (seq (S i) (List.length r)))).
    { apply map_ext_in. intros j Hj.
      apply filter_In in Hj. destruct Hj as [Hj _].
      apply in_seq in Hj.
      replace (j - i)%nat with (S (j - S i)) by lia. reflexivity. }
    destruct (g i).
    + simpl. rewrite Nat.sub_diag, IH, T. reflexivity.
    + rewrite IH, T. reflexivity.
Qed.

Lemma mapIdxFrom_nth (f : A -> nat -> B) (l : list A) (i k : nat) (x : A) :
  nth_error l k = Some x ->
  nth_error (mapIdxFrom f i l) k = Some (f x (i + k)%nat).
Proof.
  revert i k. induction l as [ | y r IH]; intros i k H.
  - destruct k; discriminate.
  - destruct k as [ | k]; simpl in *.
    + injection H as ->. now rewrite Nat.add_0_r.
    + rewrite (IH (S i) k H). f_equal. f_equal. lia.
Qed.

Lemma mapIdxFrom_In (f : A -> nat -> B) (l : list A) (i : nat) (y : B) :
  In y (mapIdxFrom f i l) ->
  exists k x, nth_error l k = Some x /\ y = f x (i + k)%nat.
Proof.
  revert i. induction l as [ | a r IH]; intros i H; simpl in H.
  - contradiction.
  - destruct H as [H | H].
    + exists 0%nat, a. split; [ reflexivity | ]. now rewrite Nat.add_0_r.
    + destruct (IH (S i) H) as (k & x & Hk & E).
      exists (S k), x. split; [ exact Hk | ].
      rewrite E. f_equal. lia.
Qed.

Lemma mapIdxFrom_length (f : A -> nat -> B) (l : list A) (i : nat) :
  List.length (mapIdxFrom f i l) = List.length l.
Proof.
  revert i. induction l as [ | a r IH]; intros i; simpl; [ | rewrite IH ];
    reflexivity.
Qed.
End IndexedLists.

(** ** The stride of the downsampler *)

Section Stride.

Lemma ceilDiv_succ (n s : nat) :
  (1 <= s)%nat ->
  ceilDiv (S n) s
  = (if (n mod s =? 0)%nat then S (ceilDiv n s) else ceilDiv n s).
Proof.
  intros Hs. unfold ceilDiv.
  pose proof (Nat.div_mod_eq n s) as D.
  pose proof (Nat.mod_upper_bound n s ltac:(lia)) as U.
  destruct (Nat.eqb_spec (n mod s) 0) as [Z0 | NZ].
  - rewrite Z0 in D.
    assert (E1 : ((n + s - 1) / s = n / s)%nat).
    { symmetry. apply Nat.div_unique with (r := (s - 1)%nat); lia. }
    assert (E2 : ((S n + s - 1) / s = S (n / s))%nat).
    { symmetry. apply Nat.div_unique with (r := 0%nat); lia. }
    now rewrite E1, E2.
  - assert (E1 : ((n + s - 1) / s = S (n / s))%nat).
    { symmetry. apply Nat.div_unique with (r := (n mod s - 1)%nat); lia. }
    assert (E2 : ((S n + s - 1) / s = S (n / s))%nat).
    { symmetry. apply Nat.div_unique with (r := (n mod s)%nat); lia. }
    now rewrite E1, E2.
Qed.

Lemma ceilDiv_multiple (n s : nat) :
  (1 <= s)%nat -> (n mod s = 0)%nat -> (ceilDiv n s * s = n)%nat.
Proof.
  intros Hs Z0. unfold ceilDiv.
  pose proof (Nat.div_mod_eq n s) as D. rewrite Z0 in D.
  assert (E1 : ((n + s - 1) / s = n / s)%nat).
  { symmetry. apply Nat.div_unique with (r := (s - 1)%nat); lia. }
  rewrite E1. lia.
Qed.

(** The indices below [n] that the stride [s] divides. *)
Lemma multiples_below (n s : nat) :
  (1 <= s)%nat ->
  filter (fun j => (j mod s =? 0)%nat) (seq 0 n)
  = map (fun k => (k * s)%nat) (seq 0 (ceilDiv n s)).
Proof.
  intros Hs. induction n as [ | n IH].
  - unfold ceilDiv. replace (0 + s - 1)%nat with (s - 1)%nat by lia.
    rewrite Nat.div_small by lia. reflexivity.
  - rewrite seq_S, filter_app, IH, ceilDiv_succ by exact Hs. simpl.
    destruct (Nat.eqb_spec (n mod s) 0) as [Z0 | NZ].
    + rewrite seq_S, map_app. simpl.
      now rewrite (ceilDiv_multiple n s Hs Z0).
    + now rewrite app_nil_r.
Qed.

(** The downsampler keeps the timestamps at the multiples of the stride. *)
Lemma sampled_everyNth (ts : list string) :
  sampledTimestamps ts = everyNth (stride (List.length ts)) ts.
Proof.
  destruct ts as [ | t r] eqn:E; [ reflexivity | ].
  rewrite <- E.
  assert (Hn : (1 <= List.length ts)%nat) by (rewrite E; simpl; lia).
  pose proof (stride_pos _ Hn) as Hs.
  unfold sampledTimestamps, filterIdx, everyNth.
  rewrite interval_stride by exact Hn.
  rewrite (filterIdxFrom_ext _
             (fun _ j => (j mod stride (List.length ts) =? 0)%nat))
    by (intros; now apply rem_is_zero).
  rewrite (filterIdxFrom_seq _ EmptyString), multiples_below by exact Hs.
  rewrite map_map. apply map_ext. intros k. now rewrite Nat.sub_0_r.
Qed.
End Stride.

(** ** The downsampler *)

(** C2. The target density is n below 30, 20 below 100 and 30 from there on;
    the stride is ceiling(n / target), which is NaN on the empty timeline
    (0 / 0) and a positive integer otherwise; the sampled timeline holds the
    timestamps at the indices 0, stride, 2*stride, ...  With 10 timestamps
    all are kept, with 50 the target is 20 and the stride 3, with 500 the
    target is 30 and the stride 17. *)
Theorem C2_downsampler_stride :
  (forall n : nat,
     targetPoints n
     = if (n <? 30)%nat then n else if (n <? 100)%nat then 20%nat else 30%nat)
  /\ (forall n : nat,
        interval n = match n with
                     | O => NaN
                     | S _ => numNat (ceilDiv n (targetPoints n))
                     end)
  /\ (forall ts : list string,
        sampledTimestamps ts
        = everyNth (ceilDiv (List.length ts) (targetPoints (List.length ts)))
                   ts)
  /\ sampledTimestamps (labels 10) = labels 10
  /\ (targetPoints 50 = 20%nat /\ interval 50 = numZ 3
      /\ sampledTimestamps (labels 50)
         = map natStr [0; 3; 6; 9; 12; 15; 18; 21; 24; 27; 30; 33; 36; 39;
                       42; 45; 48]%nat)
  /\ (targetPoints 500 = 30%nat /\ interval 500 = numZ 17
      /\ firstn 4 (sampledTimestamps (labels 500))
         = map natStr [0; 17; 34; 51]%nat).
Proof.
  split; [ reflexivity | ].
  split.
  { intros [ | n]; [ reflexivity | ]. apply interval_stride. lia. }
  split; [ exact sampled_everyNth | ].
  repeat split; vm_compute; reflexivity.
Qed.

(** C7, on a timeline that is not empty: the sampled timeline is not empty,
    its first element is the timestamp of index 0 and it has at most
    ceiling(n / stride) elements. *)
Theorem C7_downsampler_first (ts : list string) :
  (1 <= List.length ts)%nat -> startsAtFirst ts.
Proof.
  intros Hn. unfold startsAtFirst.
  pose proof (stride_pos _ Hn) as Hs.
  rewrite sampled_everyNth. unfold everyNth.
  set (s := stride (List.length ts)) in *.
  assert (Hc : (1 <= ceilDiv (List.length ts) s)%nat).
  { unfold ceilDiv. apply Nat.div_le_lower_bound; lia. }
  destruct (ceilDiv (List.length ts) s) as [ | c] eqn:E; [ lia | ].
  destruct ts as [ | t r]; [ simpl in Hn; lia | ].
  exists t, (map (fun k => nth (k * s) (t :: r) EmptyString) (seq 1 c)).
  split; [ reflexivity | ].
  split; [ reflexivity | ].
  rewrite length_map, length_seq. lia.
Qed.

Lemma C7_downsampler_first_witness : startsAtFirst (labels 50).
Proof. apply (C7_downsampler_first (labels 50)). vm_compute. lia. Defined.

(** On the empty timeline the downsampler returns the empty timeline. *)
Lemma C7_empty_timeline_counterexample : ~ startsAtFirst [].
Proof.
  intros (first & rest & H & _). vm_compute in H. discriminate.
Qed.

(** ** The Series invariant and the aggregate *)

Section Aggregate.

Lemma mapModify_twice (k : string) (f g : ProcessData -> ProcessData)
                      (m : ProcessMap) :
  mapModify k g (mapModify k f m) = mapModify k (fun d => g (f d)) m.
Proof.
  induction m as [ | [k' v] r IH]; simpl; [ reflexivity | ].
  destruct (String.eqb k' k) eqn:E; simpl; rewrite E; [ | rewrite IH ];
    reflexivity.
Qed.

Lemma mapModify_wf (k : string) (f : ProcessData -> ProcessData)
                   (m : ProcessMap) :
  (forall d, wfData d -> wfData (f d)) -> wfMap m -> wfMap (mapModify k f m).
Proof.
  intros Hf. induction 1 as [ | [k' v] r Hv Hr IH]; simpl.
  - constructor.
  - destruct (String.eqb k' k); constructor; simpl in *; auto.
Qed.

Lemma mapSet_wf (k : string) (v : ProcessData) (m : ProcessMap) :
  wfData v -> wfMap m -> wfMap (mapSet k v m).
Proof.
  intros Hv. induction 1 as [ | [k' v'] r Hv' Hr IH]; simpl.
  - repeat constructor. exact Hv.
  - destruct (String.eqb k' k); constructor; simpl in *; auto.
Qed.

Lemma addSample_wf (st : ParseState) (t pid name r : string) :
  wfMap (st_processes st) -> wfMap (st_processes (addSample st t pid name r)).
Proof.
  intros H. unfold addSample; simpl.
  rewrite mapModify_twice. apply mapModify_wf.
  - intros d Hd. unfold wfData, pushRss, pushTimestamp in *; simpl.
    rewrite !length_app, Hd. reflexivity.
  - destruct (mapHas _ _); [ exact H | ].
    apply mapSet_wf; [ reflexivity | exact H ].
Qed.

Lemma parseLine_wf (st : ParseState) (line : string) :
  wfMap (st_processes st) -> wfMap (st_processes (parseLine st line)).
Proof.
  intros H. unfold parseLine.
  destruct (negb _); [ exact H | ].
  destruct (map trim _) as [ | a [ | b [ | c [ | d [ | e [ | f [ | ]]]]]]];
    try exact H.
  now apply addSample_wf.
Qed.

Lemma fold_parseLine_wf (lines : list string) (st : ParseState) :
  wfMap (st_processes st) ->
  wfMap (st_processes (fold_left parseLine lines st)).
Proof.
  revert st. induction lines as [ | l r IH]; intros st H; simpl.
  - exact H.
  - apply IH. now apply parseLine_wf.
Qed.

(** Every Series the parser builds has as many values as timestamps. *)
Lemma parseLogFile_wf (content : string) : wfMap (fst (parseLogFile content)).
Proof.
  unfold parseLogFile, finish, parseLines; simpl.
  apply fold_parseLine_wf. constructor.
Qed.

Lemma includes_false_entryAt (t : string) (tss : list string)
                             (vs : list jsnum) :
  includes t tss = false -> entryAt t tss vs = None.
Proof.
  revert vs. induction tss as [ | t' tr IH]; intros vs H; simpl in *.
  - reflexivity.
  - destruct vs as [ | v vr]; [ reflexivity | ].
    destruct (String.eqb t' t); [ discriminate | ]. now apply IH.
Qed.

Lemma indexOfFrom_entryAt (t : string) (tss : list string) (vs : list jsnum)
                          (i : Z) :
  List.length tss = List.length vs ->
  includes t tss = true ->
  exists v,
    entryAt t tss vs = Some v /\
    (i <= indexOfFrom i t tss)%Z /\
    nth_error vs (Z.to_nat (indexOfFrom i t tss - i)) = Some v.
Proof.
  revert vs i. induction tss as [ | t' tr IH]; intros vs i L H; simpl in *.
  - discriminate.
  - destruct vs as [ | v vr]; [ discriminate | ].
    destruct (String.eqb t' t) eqn:E.
    + exists v. rewrite Z.sub_diag.
      split; [ reflexivity | split; [ lia | reflexivity ] ].
    + simpl in H. injection L as L.
      destruct (IH vr (i + 1)%Z L H) as (w & Hw & Hi & Hn).
      exists w. split; [ exact Hw | split; [ lia | ] ].
      replace (Z.to_nat (indexOfFrom (i + 1) t tr - i))
        with (S (Z.to_nat (indexOfFrom (i + 1) t tr - (i + 1)))) by lia.
      exact Hn.
Qed.

(** What the reducer adds for a Series that passed the filter. *)
Lemma rssAt_contribution (t : string) (p : ProcessData) (sum : jsnum) :
  wfData p -> includes t (timestamps p) = true ->
  addValue sum (rssAt p (indexOf t (timestamps p)))
  = js_add sum (contribution t p).
Proof.
  intros W H.
  destruct (indexOfFrom_entryAt t _ _ 0%Z W H) as (v & Hv & Hi & Hn).
  unfold rssAt, contribution, indexOf. rewrite Hv.
  destruct (Z.ltb_spec (indexOfFrom 0 t (timestamps p)) 0); [ lia | ].
  rewrite Z.sub_0_r in Hn. rewrite Hn. reflexivity.
Qed.

Lemma aggregate_fold (t : string) (l : list ProcessData) (acc : jsnum) :
  Forall wfData l ->
  fold_left
    (fun sum p => addValue sum (rssAt p (indexOf t (timestamps p))))
    (filter (fun p => includes t (timestamps p)) l) acc
  = fold_left js_add (map (contribution t) l) acc.
Proof.
  intros W. revert acc. induction W as [ | p r Hp Hr IH]; intros acc; simpl.
  - reflexivity.
  - destruct (includes t (timestamps p)) eqn:E; simpl.
    + rewrite rssAt_contribution by assumption. apply IH.
    + unfold contribution at 2.
      rewrite (includes_false_entryAt _ _ _ E), js_add_0_r. apply IH.
Qed.

Lemma wfMap_values (processes : ProcessMap) :
  wfMap processes -> Forall wfData (map snd processes).
Proof. intros W. unfold wfMap in W. now rewrite Forall_map. Qed.
End Aggregate.

(** C1. At every timestamp the aggregate is the sum, over the Series, of the
    value the Series holds there, a Series without an entry there adding
    zero; this holds for every mapping that keeps the Series invariant, and
    so for every mapping the parser returns.  For 101-DaemonA with
    [100,150,200] and 202-DaemonB with [50,50] the aggregate over the union
    timeline is [150,200,200], in the chart and in the diagram. *)
Theorem C1_aggregate_sum :
  (forall (processes : ProcessMap) (t : string),
     wfMap processes ->
     aggregateAt processes t
     = fold_left js_add (map (contribution t) (map snd processes)) (numZ 0))
  /\ (forall (p : ProcessData) (t : string),
        includes t (timestamps p) = false -> contribution t p = numZ 0)
  /\ (forall (content t : string),
        aggregateAt (fst (parseLogFile content)) t
        = fold_left js_add
            (map (contribution t) (map snd (fst (parseLogFile content))))
            (numZ 0))
  /\ parseLogFile twoDaemonsLog = (twoDaemons, twoDaemonsTimeline)
  /\ svgAggregatedRss twoDaemons twoDaemonsTimeline
     = [numZ 150; numZ 200; numZ 200]
  /\ map (aggregateAt twoDaemons) (sampledTimestamps twoDaemonsTimeline)
     = [numZ 150; numZ 200; numZ 200].
Proof.
  assert (G : forall processes t, wfMap processes ->
              aggregateAt processes t
              = fold_left js_add (map (contribution t) (map snd processes))
                          (numZ 0)).
  { intros processes t W. unfold aggregateAt.
    apply aggregate_fold. now apply wfMap_values. }
  split; [ exact G | ].
  split.
  { intros p t H. unfold contribution.
    now rewrite (includes_false_entryAt _ _ _ H). }
  split.
  { intros content t. apply G. apply parseLogFile_wf. }
  repeat split; vm_compute; reflexivity.
Qed.

Lemma C1_aggregate_sum_witness :
  aggregateAt twoDaemons "00:00:10"
  = fold_left js_add (map (contribution "00:00:10") (map snd twoDaemons))
              (numZ 0).
Proof.
  apply (proj1 C1_aggregate_sum twoDaemons "00:00:10").
  repeat constructor.
Defined.

(** ** The parser *)

Section Parser.

Lemma parseLine_discards (st : ParseState) (line : string) :
  sixFields line = false -> parseLine st line = st.
Proof. intros H. unfold parseLine. fold (sixFields line). now rewrite H. Qed.

Lemma parseLine_sample (st : ParseState) (line : string) :
  sixFields line = true ->
  exists a b c d e f,
    split "|" (trim line) = [a; b; c; d; e; f] /\
    parseLine st line = addSample st (trim a) (trim b) (trim c) (trim f).
Proof.
  intros H. unfold parseLine. fold (sixFields line). rewrite H.
  unfold sixFields in H. apply Nat.eqb_eq in H.
  destruct (split "|" (trim line))
    as [ | a [ | b [ | c [ | d [ | e [ | f [ | g r]]]]]]]; try discriminate.
  exists a, b, c, d, e, f. split; reflexivity.
Qed.

Lemma fold_parseLine_filter (lines : list string) (st : ParseState) :
  fold_left parseLine lines st
  = fold_left parseLine (filter sixFields lines) st.
Proof.
  revert st. induction lines as [ | l r IH]; intros st; simpl.
  - reflexivity.
  - destruct (sixFields l) eqn:E; simpl.
    + apply IH.
    + rewrite (parseLine_discards st l E). apply IH.
Qed.

Lemma parseLine_heapVariant (st : ParseState) (l1 l2 : string) :
  heapVariant l1 l2 -> parseLine st l1 = parseLine st l2.
Proof.
  intros [-> | (a & b & c & d & e & f & d' & e' & H1 & H2)].
  - reflexivity.
  - unfold parseLine. rewrite H1, H2. reflexivity.
Qed.

Lemma fold_parseLine_heapVariant (l1 l2 : list string) :
  Forall2 heapVariant l1 l2 ->
  forall st, fold_left parseLine l1 st = fold_left parseLine l2 st.
Proof.
  induction 1 as [ | x y r1 r2 Hxy Hr IH]; intros st; simpl.
  - reflexivity.
  - rewrite (parseLine_heapVariant st x y Hxy). apply IH.
Qed.

Lemma Forall2_skipn {A : Type} (R : A -> A -> Prop) (n : nat)
                    (l1 l2 : list A) :
  Forall2 R l1 l2 -> Forall2 R (skipn n l1) (skipn n l2).
Proof.
  intros H. revert n. induction H as [ | x y r1 r2 Hxy Hr IH]; intros n.
  - destruct n; constructor.
  - destruct n; simpl; [ now constructor | apply IH ].
Qed.
End Parser.

(** C3. The parser never looks at the first two lines and folds over the
    others; a line that does not split into six fields on the pipe leaves
    the state as it was, a line that does yields the sample made of its
    trimmed first, second, third and sixth fields; a line of five fields
    between two lines changes nothing to what these two produce.  The parser
    is a function of the text: it has a result on every input. *)
Theorem C3_parser_drops_malformed :
  (forall content : string,
     parseLogFile content
     = finish (fold_left parseLine
                 (filter sixFields (skipn 2 (split (ascii_of_nat 10) content)))
                 initState))
  /\ (forall (h1 h2 g1 g2 : string) (rest : list string),
        parseLines (h1 :: h2 :: rest) = parseLines (g1 :: g2 :: rest))
  /\ (forall (st : ParseState) (line : string),
        List.length (split "|" (trim line)) <> 6%nat -> parseLine st line = st)
  /\ (forall (st : ParseState) (line : string),
        List.length (split "|" (trim line)) = 6%nat ->
        exists a b c d e f,
          split "|" (trim line) = [a; b; c; d; e; f] /\
          parseLine st line
          = addSample st (trim a) (trim b) (trim c) (trim f))
  /\ (forall (st : ParseState) (before bad after : string),
        List.length (split "|" (trim bad)) = 5%nat ->
        fold_left parseLine [before; bad; after] st
        = parseLine (parseLine st before) after)
  /\ (List.length (split "|" (trim fiveFieldLine)) = 5%nat
      /\ parseLogFile gapLog
         = ([("101-DaemonA",
              mkProcessData ["00:00:00"; "00:00:10"] [numZ 100; numZ 200])],
            ["00:00:00"; "00:00:10"])).
Proof.
  split.
  { intros content. unfold parseLogFile, parseLines.
    now rewrite fold_parseLine_filter. }
  split; [ reflexivity | ].
  split.
  { intros st line H. apply parseLine_discards.
    unfold sixFields. now apply Nat.eqb_neq. }
  split.
  { intros st line H. apply parseLine_sample.
    unfold sixFields. now apply Nat.eqb_eq. }
  split.
  { intros st before bad after H. simpl.
    rewrite (parseLine_discards (parseLine st before) bad); [ reflexivity | ].
    unfold sixFields. rewrite H. reflexivity. }
  split; vm_compute; reflexivity.
Qed.

Lemma C3_parser_drops_malformed_witness :
  fold_left parseLine [goodLineA; fiveFieldLine; goodLineB] initState
  = parseLine (parseLine initState goodLineA) goodLineB.
Proof.
  apply (proj1 (proj2 (proj2 (proj2 (proj2 C3_parser_drops_malformed))))
           initState goodLineA fiveFieldLine goodLineB).
  vm_compute. reflexivity.
Defined.

(** C10. Two logs whose lines, taken in pairs, are equal or split into six
    fields that agree except on the fourth and the fifth give the same Series
    and the same Timeline, hence the same diagram, the same chart and the
    same summary. *)
Theorem C10_heap_fields_ignored (content1 content2 summary : string)
                                (fuel : nat) :
  Forall2 heapVariant (split (ascii_of_nat 10) content1)
                      (split (ascii_of_nat 10) content2) ->
  parseLogFile content1 = parseLogFile content2
  /\ generateMermaidChart (fst (parseLogFile content1))
                          (snd (parseLogFile content1))
     = generateMermaidChart (fst (parseLogFile content2))
                            (snd (parseLogFile content2))
  /\ generateSvg fuel (fst (parseLogFile content1))
                 (snd (parseLogFile content1))
     = generateSvg fuel (fst (parseLogFile content2))
                   (snd (parseLogFile content2))
  /\ overview (fst (parseLogFile content1)) (snd (parseLogFile content1))
     = overview (fst (parseLogFile content2)) (snd (parseLogFile content2))
  /\ map processDetails (fst (parseLogFile content1))
     = map processDetails (fst (parseLogFile content2))
  /\ render fuel summary content1 = render fuel summary content2.
Proof.
  intros H.
  assert (E : parseLogFile content1 = parseLogFile content2).
  { unfold parseLogFile, parseLines. f_equal.
    apply fold_parseLine_heapVariant. now apply Forall2_skipn. }
  unfold render. rewrite E. repeat split; reflexivity.
Qed.

Lemma C10_heap_fields_ignored_witness :
  parseLogFile twoDaemonsLog = parseLogFile twoDaemonsLogHeap.
Proof.
  apply (C10_heap_fields_ignored twoDaemonsLog twoDaemonsLogHeap
                                 EmptyString 0).
  vm_compute.
  repeat (constructor;
          [ first [ left; reflexivity
                  | right; do 8 eexists; split; reflexivity ] | ]).
  constructor.
Defined.

(** ** The vertical scale of the chart *)

Section VerticalScale.

Lemma max_fold_fin (l : list jsnum) :
  Forall isFin l ->
  forall q : Q,
  exists m : Q,
    fold_left js_max2 l (Fin q) = Fin m /\
    In (Fin m) (Fin q :: l) /\
    (forall x, In (Fin x) (Fin q :: l) -> (x <= m)%Q).
Proof.
  induction 1 as [ | a r [y ->] Hr IH]; intros q.
  - exists q. simpl. split; [ reflexivity | ]. split; [ now left | ].
    intros x [E | []]. injection E as Ex; subst x. apply Qle_refl.
  - simpl. destruct (Qle_bool y q) eqn:C; simpl.
    + destruct (IH q) as (m & Hm & Hin & Hb).
      exists m. split; [ exact Hm | ]. split.
      * destruct Hin as [E | Hin]; [ now left | right; now right ].
      * intros x [E | [E | Hx]].
        -- apply Hb. now left.
        -- injection E as Ex; subst x. apply Qle_bool_iff in C.
           apply Qle_trans with q; [ exact C | ]. apply Hb. now left.
        -- apply Hb. now right.
    + destruct (IH y) as (m & Hm & Hin & Hb).
      exists m. split; [ exact Hm | ]. split.
      * right. exact Hin.
      * intros x [E | [E | Hx]].
        -- injection E as Ex; subst x.
           assert (Hq : (q <= y)%Q).
           { apply Qnot_lt_le. intros L. apply Qlt_le_weak in L.
             apply Qle_bool_iff in L. congruence. }
           apply Qle_trans with y; [ exact Hq | ]. apply Hb. now left.
        -- apply Hb. left. exact E.
        -- apply Hb. now right.
Qed.

(** [Math.max] over finite numbers, at least one, is the largest of them. *)
Lemma mathMax_fin (l : list jsnum) :
  Forall isFin l -> l <> [] ->
  exists m : Q,
    mathMax l = Fin m /\ In (Fin m) l /\
    (forall x, In (Fin x) l -> (x <= m)%Q).
Proof.
  intros F N. destruct F as [ | a r [y ->] Hr]; [ congruence | ].
  unfold mathMax; simpl. exact (max_fold_fin r Hr y).
Qed.

(** Over finite Series values, at least one, and finite aggregates,
    [maxRss] is the largest of them all. *)
Lemma maxRss_largest (processes : ProcessMap) (ts : list string) :
  Forall isFin (allRss processes) ->
  Forall isFin (svgAggregatedRss processes ts) ->
  allRss processes <> [] ->
  exists m : Q,
    maxRss processes ts = Fin m /\
    In (Fin m) (allRss processes ++ svgAggregatedRss processes ts) /\
    (forall x,
       In (Fin x) (allRss processes ++ svgAggregatedRss processes ts) ->
       (x <= m)%Q).
Proof.
  intros F FA N.
  destruct (mathMax_fin (allRss processes) F N) as (m1 & E1 & I1 & B1).
  unfold maxRss, maxIndividualRss, maxAggregatedRss.
  rewrite E1. unfold mathMax at 1. simpl fold_left.
  destruct (svgAggregatedRss processes ts) as [ | a r] eqn:EA.
  - exists m1. split; [ reflexivity | ]. rewrite app_nil_r.
    split; assumption.
  - destruct (mathMax_fin _ FA ltac:(discriminate)) as (m2 & E2 & I2 & B2).
    rewrite E2. simpl. destruct (Qle_bool m2 m1) eqn:C; simpl.
    + exists m1. split; [ reflexivity | ]. split.
      * apply in_or_app. now left.
      * intros x Hx. apply in_app_or in Hx. destruct Hx as [Hx | Hx].
        -- now apply B1.
        -- apply Qle_bool_iff in C.
           apply Qle_trans with m2; [ now apply B2 | exact C ].
    + exists m2. split; [ reflexivity | ]. split.
      * apply in_or_app. now right.
      * intros x Hx. apply in_app_or in Hx. destruct Hx as [Hx | Hx].
        -- assert (Hq : (m1 <= m2)%Q).
           { apply Qnot_lt_le. intros L. apply Qlt_le_weak in L.
             apply Qle_bool_iff in L. congruence. }
           apply Qle_trans with m1; [ now apply B1 | exact Hq ].
        -- now apply B2.
Qed.

Lemma withinRange_fin (l : list jsnum) :
  Forall withinRange l -> Forall isFin l.
Proof.
  intros H. eapply Forall_impl; [ | exact H ].
  intros v (q & E & _). now exists q.
Qed.

Lemma forLoop_unfold {A : Type} (fuel : nat) (cond : jsnum -> bool)
                     (step : jsnum -> jsnum) (body : jsnum -> A) (i : jsnum) :
  forLoop fuel cond step body i
  = if cond i then
      match fuel with
      | O => None
      | S f =>
          match forLoop f cond step body (step i) with
          | Some r => Some (body i :: r)
          | None => None
          end
      end
    else Some [].
Proof. destruct fuel; reflexivity. Qed.

(** The grid loop up to [1000 * c] runs [2 * c + 1] times. *)
Lemma grid_loop {A : Type} (c : Z) (body : jsnum -> A) :
  forall (r k fuel : nat),
    (k + r = Z.to_nat (2 * c + 1))%nat -> (r <= fuel)%nat ->
    forLoop fuel (fun i => js_le i (numZ (c * 1000)))
            (fun i => js_add i gridInterval) body
            (numZ (500 * Z.of_nat k))
    = Some (map (fun j => body (numZ (500 * Z.of_nat j))) (seq k r)).
Proof.
  induction r as [ | r IH]; intros k fuel Hk Hf; rewrite forLoop_unfold;
    cbv beta.
  - rewrite js_le_numZ.
    destruct (Z.leb_spec (500 * Z.of_nat k) (c * 1000)); [ lia | ].
    reflexivity.
  - rewrite js_le_numZ.
    destruct (Z.leb_spec (500 * Z.of_nat k) (c * 1000)); [ | lia ].
    destruct fuel as [ | f]; [ lia | ].
    change (js_add (numZ (500 * Z.of_nat k)) gridInterval)
      with (js_add (numZ (500 * Z.of_nat k)) (numZ 500)).
    rewrite numZ_add.
    replace (500 * Z.of_nat k + 500)%Z with (500 * Z.of_nat (S k))%Z by lia.
    rewrite (IH (S k) f) by lia. reflexivity.
Qed.

Lemma js_lt_numZ (a b : Z) : js_lt (numZ a) (numZ b) = (a <? b)%Z.
Proof.
  unfold numZ, js_lt, inject_Z, Qle_bool; simpl.
  rewrite !Z.mul_1_r. now rewrite Z.ltb_antisym.
Qed.

Lemma labelInterval_value (ts : list string) :
  labelInterval ts = numZ ((Z.of_nat (List.length ts) + 15 - 1) / 15).
Proof.
  unfold labelInterval, numNat, numZ, js_div.
  rewrite qsign_pos by lia. unfold js_ceil, numZ.
  now rewrite Qceiling_div by lia.
Qed.

(** The loop of the horizontal labels ends within [length ts] rounds. *)
Lemma xLabels_returns (ts : list string) (xs : jsnum) (fuel : nat) :
  (List.length ts <= fuel)%nat ->
  exists labels, xLabels fuel ts xs = Some labels.
Proof.
  intros Hf. unfold xLabels. rewrite labelInterval_value.
  set (n := Z.of_nat (List.length ts)).
  set (L := ((n + 15 - 1) / 15)%Z).
  assert (HL : (0 < n -> 1 <= L)%Z).
  { intros Hn. unfold L. apply Z.div_le_lower_bound; lia. }
  assert (G : forall (m : nat) (z : Z) (f : nat),
            (0 <= z)%Z -> (Z.to_nat (n - z) <= m)%nat -> (m <= f)%nat ->
            exists labels,
              forLoop f (fun i => js_lt i (numNat (List.length ts)))
                      (fun i => js_add i (numZ L))
                      (fun i => (xOf xs i, nthNum ts i)) (numZ z)
              = Some labels).
  { induction m as [ | m IH]; intros z f Hz Hm Hfm;
      rewrite forLoop_unfold; cbv beta; unfold numNat; fold n;
      rewrite js_lt_numZ;
      destruct (Z.ltb_spec z n) as [Lt | Ge]; try (eexists; reflexivity).
    - lia.
    - destruct f as [ | f]; [ lia | ].
      rewrite numZ_add.
      destruct (IH (z + L)%Z f) as (r & Hr); [ lia | lia | lia | ].
      fold n in Hr. unfold numNat in Hr. fold n in Hr.
      rewrite Hr. eexists; reflexivity. }
  apply (G (List.length ts) 0%Z fuel); lia.
Qed.
End VerticalScale.

(** C4. The statement of the specification fails on a dataset that holds a
    value that is not a number, as the parser stores for a line cut after its
    fifth pipe: the maximum is NaN and the chart has no grid line.  For
    Series values, at least one, and aggregate values that are finite and
    zero or of magnitude between 2^-1000 and 2^52, the maximum of the
    vertical axis is 1000 times the ceiling of (m / 1000), where m is the
    largest of the Series values and the aggregate values, and with enough
    fuel the chart is returned, its grid lines drawn at the multiples of 500
    from 0 to that maximum.  For the sample log, whose peak 2300 is an
    aggregate, the maximum is 3000 and the grid lines are 0, 500, ..., 3000. *)
Theorem C4_y_axis_maximum :
  (forall (processes : ProcessMap) (ts : list string),
     Forall withinRange (allRss processes ++ svgAggregatedRss processes ts) ->
     allRss processes <> [] ->
     yAxisAsSpecified processes ts)
  /\ (maxRss (fst (parseLogFile peakLog)) (snd (parseLogFile peakLog))
      = numZ 2300
      /\ yAxisMax (fst (parseLogFile peakLog)) (snd (parseLogFile peakLog))
         = numZ 3000
      /\ option_map (fun chart => map fst (svg_gridLines chart))
           (generateSvg 7 (fst (parseLogFile peakLog))
                        (snd (parseLogFile peakLog)))
         = Some [numZ 0; numZ 500; numZ 1000; numZ 1500; numZ 2000;
                 numZ 2500; numZ 3000]).
Proof.
  split.
  - intros processes ts R N.
    apply withinRange_fin in R. apply Forall_app in R. destruct R as [F FA].
    destruct (maxRss_largest processes ts F FA N) as (m & E & I & B).
    exists m. split; [ exact E | ]. split; [ exact I | ].
    split; [ exact B | ].
    assert (Y : yAxisMax processes ts
                = numZ (Qceiling (m / inject_Z 1000) * 1000)).
    { unfold yAxisMax. rewrite E. reflexivity. }
    split; [ exact Y | ].
    intros fuel Hf Hn.
    assert (Gr : gridLines fuel (yAxisMax processes ts) (yScale processes ts)
                 = Some (map (fun v => (v, yOf (yScale processes ts) v))
                             (gridValues (Qceiling (m / inject_Z 1000))))).
    { rewrite Y at 1. unfold gridLines, gridValues.
      change (numZ 0) with (numZ (500 * Z.of_nat 0)).
      rewrite (grid_loop (Qceiling (m / inject_Z 1000)) _
                 (Z.to_nat (2 * Qceiling (m / inject_Z 1000) + 1))
                 0 fuel) by lia.
      now rewrite map_map. }
    destruct (xLabels_returns ts (xScale ts) fuel Hn) as (xl & Hx).
    unfold generateSvg. rewrite Gr, Hx.
    eexists. split; [ reflexivity | ]. split; reflexivity.
  - repeat split; vm_compute; reflexivity.
Qed.

Lemma C4_y_axis_maximum_witness :
  yAxisAsSpecified twoDaemons twoDaemonsTimeline.
Proof.
  apply (proj1 C4_y_axis_maximum twoDaemons twoDaemonsTimeline).
  - repeat constructor;
      (eexists; split; [ vm_compute; reflexivity | ];
       split; [ | right ]; vm_compute; discriminate).
  - discriminate.
Defined.

Lemma C4_not_a_number_counterexample :
  allRss (fst (parseLogFile truncatedLog)) <> []
  /\ yAxisMax (fst (parseLogFile truncatedLog))
              (snd (parseLogFile truncatedLog)) = NaN
  /\ option_map svg_gridLines
       (generateSvg 2 (fst (parseLogFile truncatedLog))
                    (snd (parseLogFile truncatedLog))) = Some []
  /\ ~ yAxisAsSpecified (fst (parseLogFile truncatedLog))
                        (snd (parseLogFile truncatedLog)).
Proof.
  split; [ vm_compute; discriminate | ].
  split; [ vm_compute; reflexivity | ].
  split; [ vm_compute; reflexivity | ].
  intros (m & E & _). vm_compute in E. discriminate.
Qed.

(** ** The edges of the diagram *)

Section Edges.

Lemma append_assoc (a b c : string) : (a ++ b) ++ c = a ++ (b ++ c).
Proof. induction a as [ | x a IH]; simpl; [ | rewrite IH ]; reflexivity. Qed.

Lemma append_cancel_l (a x y : string) : a ++ x = a ++ y -> x = y.
Proof.
  induction a as [ | c a IH]; simpl; intros H; [ exact H | ].
  injection H as H. now apply IH.
Qed.

Lemma noSpace_uint (u : Decimal.uint) :
  noSpace (NilEmpty.string_of_uint u) = true.
Proof. induction u; simpl; auto. Qed.

(** Two texts that agree and start with a run without space, then a space,
    start with the same run. *)
Lemma cut_at_space (d1 d2 r1 r2 : string) :
  noSpace d1 = true -> noSpace d2 = true ->
  d1 ++ String " "%char r1 = d2 ++ String " "%char r2 -> d1 = d2.
Proof.
  revert d2. induction d1 as [ | c d1 IH]; intros [ | c2 d2] N1 N2 H;
    simpl in *.
  - reflexivity.
  - injection H as Hc _. subst c2. discriminate.
  - injection H as Hc _. subst c. discriminate.
  - injection H as Hc Hr. subst c2.
    apply andb_true_iff in N1. apply andb_true_iff in N2.
    f_equal. apply IH; tauto.
Qed.

Lemma natStr_inj (i j : nat) : natStr i = natStr j -> i = j.
Proof.
  unfold natStr. intros H.
  apply DecimalNat.Unsigned.to_uint_inj.
  assert (E : Some (Nat.to_uint i) = Some (Nat.to_uint j)).
  { rewrite <- (NilEmpty.usu (Nat.to_uint i)),
            <- (NilEmpty.usu (Nat.to_uint j)).
    now rewrite H. }
  now injection E.
Qed.

(** The text of an edge tells the index it leaves from. *)
Lemma seriesEdgeText_inj (key : string) (i j : nat) :
  seriesEdgeText key i = seriesEdgeText key j -> i = j.
Proof.
  unfold seriesEdgeText, nodeId. intros H.
  apply append_cancel_l in H.
  rewrite !append_assoc in H.
  apply append_cancel_l in H.
  simpl in H. injection H as H.
  apply natStr_inj.
  apply (cut_at_space _ _ _ _ (noSpace_uint _) (noSpace_uint _) H).
Qed.

Lemma seriesEdgeText_nonempty (key : string) (j : nat) :
  isEmpty (seriesEdgeText key j) = false.
Proof. reflexivity. Qed.

Lemma indexOfFrom_absent (x : string) (l : list string) (i : Z) :
  (0 <= i)%Z ->
  (indexOfFrom i x l =? -1)%Z = negb (includes x l)
  /\ (indexOfFrom i x l = -1 \/ i <= indexOfFrom i x l)%Z.
Proof.
  revert i. induction l as [ | y r IH]; intros i Hi; simpl.
  - split; [ reflexivity | now left ].
  - destruct (String.eqb y x); simpl.
    + split; [ | right; lia ].
      apply Z.eqb_neq. lia.
    + destruct (IH (i + 1)%Z ltac:(lia)) as [E [A | A]].
      * split; [ exact E | now left ].
      * split; [ exact E | right; lia ].
Qed.

(** [indexOf] answers -1 exactly when [includes] answers false. *)
Lemma indexOf_absent (x : string) (l : list string) :
  (indexOf x l =? -1)%Z = negb (includes x l).
Proof. apply (indexOfFrom_absent x l 0). lia. Qed.

(** The cell the edge map computes at the index [S j]. *)
Lemma edgeCell_succ (sampled : list string) (key : string)
                    (data : ProcessData) (tPrev tCur : string) (j : nat) :
  nth_error sampled j = Some tPrev ->
  edgeCell sampled (key, data) tCur (S j)
  = if includes tPrev (timestamps data) && includes tCur (timestamps data)
    then seriesEdgeText key j else EmptyString.
Proof.
  intros H. unfold edgeCell, indexOfSampled. rewrite H.
  rewrite !indexOf_absent.
  destruct (includes tPrev (timestamps data)),
           (includes tCur (timestamps data)); reflexivity.
Qed.

Lemma series_edge_iff (sampled : list string) (key : string)
                      (data : ProcessData) (i : nat) (tPrev tCur : string) :
  nth_error sampled i = Some tPrev ->
  nth_error sampled (S i) = Some tCur ->
  In (seriesEdgeText key i) (seriesEdges sampled (key, data))
  <-> includes tPrev (timestamps data) = true
      /\ includes tCur (timestamps data) = true.
Proof.
  intros Hp Hc. unfold seriesEdges, filterBoolean, seriesEdgeCells, mapIdx.
  rewrite filter_In. split.
  - intros [H _].
    apply mapIdxFrom_In in H. destruct H as (k & x & Hk & E).
    rewrite Nat.add_0_l in E.
    destruct k as [ | j]; [ simpl in E; discriminate | ].
    destruct (nth_error sampled j) as [tp | ] eqn:Hj.
    + rewrite (edgeCell_succ sampled key data tp x j Hj) in E.
      destruct (includes tp (timestamps data)) eqn:I1;
        [ | discriminate ].
      destruct (includes x (timestamps data)) eqn:I2;
        [ | discriminate ].
      simpl in E. apply seriesEdgeText_inj in E. subst j.
      rewrite Hp in Hj. injection Hj as ->.
      rewrite Hc in Hk. injection Hk as ->.
      split; assumption.
    + apply nth_error_None in Hj.
      assert (S j < List.length sampled)%nat
        by (apply nth_error_Some; congruence).
      lia.
  - intros [I1 I2]. split; [ | reflexivity ].
    assert (N : nth_error (mapIdxFrom (edgeCell sampled (key, data)) 0 sampled)
                          (S i)
                = Some (seriesEdgeText key i)).
    { rewrite (mapIdxFrom_nth _ _ 0 (S i) tCur Hc). simpl Nat.add.
      rewrite (edgeCell_succ sampled key data tPrev tCur i Hp), I1, I2.
      reflexivity. }
    exact (nth_error_In _ _ N).
Qed.

Lemma agg_edge_present (sampled : list string) (i : nat) (tCur : string) :
  nth_error sampled (S i) = Some tCur ->
  In (aggEdgeText i) (aggEdges sampled).
Proof.
  intros Hc. unfold aggEdges, filterBoolean, aggEdgeCells, mapIdx.
  rewrite filter_In. split; [ | reflexivity ].
  assert (N : nth_error (mapIdxFrom aggEdgeCell 0 sampled) (S i)
              = Some (aggEdgeText i)).
  { rewrite (mapIdxFrom_nth _ _ 0 (S i) tCur Hc). reflexivity. }
  exact (nth_error_In _ _ N).
Qed.
End Edges.

(** ** Degenerate timelines *)

(** C5. On a timeline of one timestamp the divisor [length - 1] is 0 and the
    quotient 1000 / 0 is Infinity; Infinity is truthy, so the right operand
    of [||] is not taken: the horizontal scale is Infinity, not 1000, and the
    position 100 + 0 * Infinity of the only point is NaN. *)
Theorem C5_single_timestamp_scale (t : string) :
  js_sub (numNat (List.length [t])) (numZ 1) = numZ 0
  /\ js_div (js_sub (js_sub width margin_left) margin_right) (numZ 0) = PInf
  /\ truthy PInf = true
  /\ xScale [t] = PInf
  /\ xScale [t] <> numZ 1000
  /\ xOf (xScale [t]) (numNat 0) = NaN
  /\ option_map svg_xScale
       (generateSvg 3 (fst (parseLogFile singleSampleLog))
                    (snd (parseLogFile singleSampleLog)))
     = Some PInf.
Proof.
  repeat split; try (vm_compute; reflexivity).
  vm_compute. discriminate.
Qed.

(** C8. The log that holds the two header lines only gives no Series and an
    empty Timeline, and the pass returns; on the way the stride of the
    diagram is computed as 0 / 0, which is NaN, the maximum of the chart and
    of the summary is [Math.max()], which is -Infinity, and the summary
    prints it, next to the sentinel of the duration. *)
Theorem C8_header_only_log :
  parseLogFile headerOnlyLog = ([], [])
  /\ js_div (numNat 0) (numNat (targetPoints 0)) = NaN
  /\ interval 0 = NaN
  /\ sampledTimestamps [] = []
  /\ yAxisMax [] [] = NInf
  /\ (exists out, render 0 EmptyString headerOnlyLog = Some out)
  /\ duration [] = "N/A"
  /\ overview [] []
     = "### Overview" ++ nl
       ++ "- Number of processes monitored: 0" ++ nl
       ++ "- Maximum RSS observed: -Infinity MB" ++ nl
       ++ "- Monitoring duration: N/A" ++ nl.
Proof.
  repeat split; try (vm_compute; reflexivity).
  eexists. vm_compute. reflexivity.
Qed.

(** ** The style classes of the diagram *)

(** C9. Every aggregate node [Agg_i] is named by a [class] statement of the
    aggregated style.  The [class] statements of the process style name the
    sanitized keys without the index suffix: for the two sample Series they
    are [class 101_DaemonA process] and [class 202_DaemonB process], while
    the nodes of the subgraphs are [101_DaemonA_0], [101_DaemonA_1], ...,
    which no statement names. *)
Theorem C9_style_classes :
  (forall (sampled : list string) (i : nat) (t : string),
     nth_error sampled i = Some t ->
     In ("class " ++ aggId i ++ " aggregated") (aggClassLines sampled))
  /\ processClassLines twoDaemons
     = ["class 101_DaemonA process"; "class 202_DaemonB process"]
  /\ nodeCell "00:00:00" 0
       ("101-DaemonA",
        mkProcessData ["00:00:00"; "00:00:05"; "00:00:10"]
                      [numZ 100; numZ 150; numZ 200])
     = Some ("        101_DaemonA_0[" ++ dq ++ "101-DaemonA<br/>100MB" ++ dq
             ++ "]")
  /\ (forall (key : string) (i : nat),
        In key ["101-DaemonA"; "202-DaemonB"] -> (i < 3)%nat ->
        ~ In ("class " ++ nodeId key i ++ " process")
             (processClassLines twoDaemons)).
Proof.
  split.
  { intros sampled i t H. unfold aggClassLines, mapIdx.
    apply nth_error_In with i.
    now rewrite (mapIdxFrom_nth _ _ 0 i t H). }
  split; [ reflexivity | ].
  split; [ vm_compute; reflexivity | ].
  intros key i Hk Hi.
  destruct Hk as [<- | [<- | []]];
    destruct i as [ | [ | [ | i]]]; try lia;
    vm_compute; intros [E | [E | []]]; discriminate.
Qed.

Lemma C9_style_classes_witness :
  ~ In ("class " ++ nodeId "101-DaemonA" 0 ++ " process")
       (processClassLines twoDaemons).
Proof.
  apply (proj2 (proj2 (proj2 C9_style_classes)) "101-DaemonA" 0%nat).
  - left. reflexivity.
  - lia.
Defined.

(* ================================================================== *)
(** * Further properties *)

(** ** What the parser builds *)

Section ParserContents.

Lemma includes_In (x : string) (l : list string) :
  includes x l = true <-> In x l.
Proof.
  unfold includes. rewrite existsb_exists. split.
  - intros (y & Hy & E). apply String.eqb_eq in E. now subst.
  - intros H. exists x. split; [ exact H | apply String.eqb_refl ].
Qed.

Lemma includes_not_In (x : string) (l : list string) :
  includes x l = false <-> ~ In x l.
Proof.
  rewrite <- includes_In. destruct (includes x l); split; congruence.
Qed.

Lemma mapHas_mapGet (k : string) (m : ProcessMap) :
  mapHas k m = match mapGet k m with Some _ => true | None => false end.
Proof.
  induction m as [ | [k' v] r IH]; simpl; [ reflexivity | ].
  destruct (String.eqb k' k); [ reflexivity | exact IH ].
Qed.

Lemma mapHas_includes (k : string) (m : ProcessMap) :
  mapHas k m = includes k (map fst m).
Proof.
  induction m as [ | [k' v] r IH]; simpl; [ reflexivity | ].
  destruct (String.eqb k' k); [ reflexivity | exact IH ].
Qed.

(** Looking up after [set]. *)
Lemma mapGet_mapSet (k k' : string) (v : ProcessData) (m : ProcessMap) :
  mapGet k (mapSet k' v m)
  = if String.eqb k' k then Some v else mapGet k m.
Proof.
  induction m as [ | [k0 v0] r IH]; simpl.
  - destruct (String.eqb k' k); reflexivity.
  - destruct (String.eqb k0 k') eqn:E; simpl.
    + apply String.eqb_eq in E. subst k0.
      destruct (String.eqb k' k); reflexivity.
    + destruct (String.eqb k0 k) eqn:E2; [ | exact IH ].
      apply String.eqb_eq in E2. subst k0. now rewrite String.eqb_sym, E.
Qed.

(** Looking up after a mutation of the object under a key. *)
Lemma mapGet_mapModify (k k' : string) (f : ProcessData -> ProcessData)
                       (m : ProcessMap) :
  mapGet k (mapModify k' f m)
  = if String.eqb k' k then option_map f (mapGet k m) else mapGet k m.
Proof.
  induction m as [ | [k0 v0] r IH]; simpl.
  - destruct (String.eqb k' k); reflexivity.
  - destruct (String.eqb k0 k') eqn:E; simpl.
    + apply String.eqb_eq in E. subst k0.
      destruct (String.eqb k' k); reflexivity.
    + destruct (String.eqb k0 k) eqn:E2; [ | exact IH ].
      apply String.eqb_eq in E2. subst k0. now rewrite String.eqb_sym, E.
Qed.

Lemma mapModify_keys (k : string) (f : ProcessData -> ProcessData)
                     (m : ProcessMap) :
  map fst (mapModify k f m) = map fst m.
Proof.
  induction m as [ | [k0 v0] r IH]; simpl; [ reflexivity | ].
  destruct (String.eqb k0 k); simpl; [ | rewrite IH ]; reflexivity.
Qed.

Lemma mapSet_keys (k : string) (v : ProcessData) (m : ProcessMap) :
  map fst (mapSet k v m) = setAdd k (map fst m).
Proof.
  unfold setAdd. induction m as [ | [k0 v0] r IH]; simpl; [ reflexivity | ].
  destruct (String.eqb k0 k); simpl; [ reflexivity | ].
  rewrite IH. destruct (includes k (map fst r)); reflexivity.
Qed.

Lemma firstOccurrences_snoc (l : list string) (x : string) :
  firstOccurrences (l ++ [x]) = setAdd x (firstOccurrences l).
Proof. unfold firstOccurrences. now rewrite fold_left_app. Qed.

Lemma setAdd_In (x y : string) (l : list string) :
  In y (setAdd x l) <-> y = x \/ In y l.
Proof.
  unfold setAdd. destruct (includes x l) eqn:E.
  - apply includes_In in E. split; [ tauto | ].
    intros [-> | H]; assumption.
  - rewrite in_app_iff. simpl. split.
    + intros [H | [H | []]]; [ now right | now left ].
    + intros [-> | H]; [ right; now left | now left ].
Qed.

Lemma setAdd_NoDup (x : string) (l : list string) :
  NoDup l -> NoDup (setAdd x l).
Proof.
  intros N. unfold setAdd. destruct (includes x l) eqn:E; [ exact N | ].
  apply includes_not_In in E.
  apply NoDup_app; [ exact N | repeat constructor; intros [] | ].
  intros a Ha [<- | []]. contradiction.
Qed.

Lemma firstOccurrences_spec (l : list string) :
  NoDup (firstOccurrences l)
  /\ forall x, In x (firstOccurrences l) <-> In x l.
Proof.
  induction l as [ | x l IH] using rev_ind.
  - split; [ constructor | reflexivity ].
  - destruct IH as [N M]. rewrite firstOccurrences_snoc. split.
    + now apply setAdd_NoDup.
    + intros y. rewrite setAdd_In, M, in_app_iff. simpl.
      intuition congruence.
Qed.

Lemma seriesOf_snoc (k : string) (l : list Sample) (s : Sample) :
  seriesOf k (l ++ [s])
  = if String.eqb (s_key s) k
    then Some (pushRss (s_rss s)
                 (pushTimestamp (s_timestamp s)
                    (match seriesOf k l with
                     | Some d => d
                     | None => mkProcessData [] []
                     end)))
    else seriesOf k l.
Proof.
  unfold seriesOf. rewrite filter_app. simpl.
  destruct (String.eqb (s_key s) k).
  - destruct (filter _ l) as [ | a r]; [ reflexivity | ].
    simpl. unfold pushRss, pushTimestamp; simpl.
    now rewrite !map_app.
  - now rewrite app_nil_r.
Qed.

Lemma addSample_holds (l : list Sample) (st : ParseState)
                      (t pid name r : string) :
  holds l st ->
  holds (l ++ [mkSample t (pid ++ "-" ++ name)
                        (parseFloat (removeFirst "MB" r))])
        (addSample st t pid name r).
Proof.
  intros (G & K & T). unfold holds, addSample.
  generalize (pid ++ "-" ++ name) (parseFloat (removeFirst "MB" r)).
  intros key v. cbn [st_processes st_timestamps].
  rewrite mapModify_twice. split; [ | split ].
  - intros k. rewrite seriesOf_snoc, mapGet_mapModify.
    cbn [s_key s_rss s_timestamp].
    destruct (String.eqb key k) eqn:E.
    + apply String.eqb_eq in E. subst k.
      rewrite mapHas_mapGet, G.
      destruct (seriesOf key l) as [d | ] eqn:S.
      * now rewrite G, S.
      * now rewrite mapGet_mapSet, String.eqb_refl.
    + destruct (mapHas key (st_processes st)); [ apply G | ].
      now rewrite mapGet_mapSet, E, G.
  - rewrite mapModify_keys, map_app. cbn [map s_key].
    rewrite firstOccurrences_snoc.
    rewrite <- K, mapHas_includes. unfold setAdd.
    destruct (includes key (map fst (st_processes st))) eqn:E;
      [ reflexivity | ].
    rewrite mapSet_keys. unfold setAdd. now rewrite E.
  - rewrite map_app. cbn [map s_timestamp].
    now rewrite firstOccurrences_snoc, T.
Qed.

Lemma parseLine_holds (l : list Sample) (st : ParseState) (line : string) :
  holds l st -> holds (l ++ samplesOf [line]) (parseLine st line).
Proof.
  intros H. unfold samplesOf, sampleOfLine, parseLine; simpl.
  destruct (split "|" (trim line))
    as [ | a [ | b [ | c [ | d [ | e [ | f [ | g r]]]]]]]; simpl;
    rewrite ?app_nil_r; try exact H.
  now apply addSample_holds.
Qed.

Lemma samplesOf_cons (line : string) (r : list string) :
  samplesOf (line :: r) = (samplesOf [line] ++ samplesOf r)%list.
Proof. unfold samplesOf; simpl. now rewrite app_nil_r. Qed.

Lemma fold_parseLine_holds (lines : list string) :
  forall (l : list Sample) (st : ParseState),
    holds l st ->
    holds (l ++ samplesOf lines) (fold_left parseLine lines st).
Proof.
  induction lines as [ | line r IH]; intros l st H; cbn [fold_left].
  - unfold samplesOf; simpl. now rewrite app_nil_r.
  - rewrite samplesOf_cons, app_assoc. apply IH. now apply parseLine_holds.
Qed.

Lemma parseLines_holds (content : string) :
  holds (samplesOfLog content)
        (parseLines (split (ascii_of_nat 10) content)).
Proof.
  unfold parseLines, samplesOfLog.
  apply (fold_parseLine_holds _ [] initState).
  repeat split.
Qed.

Lemma mapGet_In (k : string) (d : ProcessData) (m : ProcessMap) :
  NoDup (map fst m) -> In (k, d) m -> mapGet k m = Some d.
Proof.
  induction m as [ | [k0 v0] r IH]; simpl; intros N H; [ contradiction | ].
  inversion N as [ | ? ? Hn Nr]; subst.
  destruct H as [E | H].
  - injection E as -> ->. now rewrite String.eqb_refl.
  - destruct (String.eqb k0 k) eqn:E.
    + apply String.eqb_eq in E. subst k0. exfalso. apply Hn.
      apply in_map_iff. now exists (k, d).
    + now apply IH.
Qed.
End ParserContents.

(** ** The order of the Timeline *)

Section TimelineOrder.

Lemma ascii_compare_refl (c : ascii) : Ascii.compare c c = Eq.
Proof. unfold Ascii.compare. apply N.compare_refl. Qed.

Lemma ascii_compare_lt_trans (a b c : ascii) :
  Ascii.compare a b = Lt -> Ascii.compare b c = Lt -> Ascii.compare a c = Lt.
Proof.
  unfold Ascii.compare. rewrite !N.compare_lt_iff. apply N.lt_trans.
Qed.

Lemma strLt_trans (a b c : string) : strLt a b -> strLt b c -> strLt a c.
Proof.
  unfold strLt. revert b c.
  induction a as [ | x a IH]; intros [ | y b] [ | z c]; simpl;
    try discriminate; try reflexivity.
  destruct (Ascii.compare x y) eqn:E1; try discriminate;
    destruct (Ascii.compare y z) eqn:E2; try discriminate; intros H1 H2.
  - apply Ascii.compare_eq_iff in E1, E2. subst.
    rewrite ascii_compare_refl. now apply IH with b.
  - apply Ascii.compare_eq_iff in E1. subst. now rewrite E2.
  - apply Ascii.compare_eq_iff in E2. subst. now rewrite E1.
  - now rewrite (ascii_compare_lt_trans x y z E1 E2).
Qed.

Lemma strLt_irrefl (a : string) : ~ strLt a a.
Proof.
  unfold strLt. induction a as [ | x a IH]; simpl; [ discriminate | ].
  now rewrite ascii_compare_refl.
Qed.

(** Two different strings are ordered one way or the other. *)
Lemma strLeb_cases (x y : string) :
  x <> y ->
  (strLeb x y = true /\ strLt x y) \/ (strLeb x y = false /\ strLt y x).
Proof.
  intros N. unfold strLeb, strLt.
  rewrite (String.compare_antisym y x).
  destruct (String.compare x y) eqn:E; simpl; auto.
  apply String.compare_eq_iff in E. contradiction.
Qed.

Lemma insertSorted_In (x y : string) (l : list string) :
  In y (insertSorted x l) <-> y = x \/ In y l.
Proof.
  induction l as [ | z r IH]; simpl.
  - intuition congruence.
  - destruct (strLeb x z); simpl; rewrite ?IH; intuition congruence.
Qed.

Lemma insertSorted_sorted (x : string) (l : list string) :
  ~ In x l -> StronglySorted strLt l -> StronglySorted strLt (insertSorted x l).
Proof.
  intros N S. induction S as [ | y r Sr IH Hy]; simpl.
  - repeat constructor.
  - assert (Nxy : x <> y) by (intros ->; apply N; now left).
    assert (Nr : ~ In x r) by (intros H; apply N; now right).
    destruct (strLeb_cases x y Nxy) as [[E L] | [E L]]; rewrite E.
    + constructor; [ now constructor | ].
      constructor; [ exact L | ].
      rewrite Forall_forall in *. intros z Hz.
      apply strLt_trans with y; [ exact L | now apply Hy ].
    + constructor; [ now apply IH | ].
      rewrite Forall_forall in *. intros z Hz.
      apply insertSorted_In in Hz. destruct Hz as [-> | Hz]; auto.
Qed.

(** Sorting a list without duplicates. *)
Lemma sortStrings_spec (l : list string) :
  NoDup l ->
  StronglySorted strLt (sortStrings l)
  /\ forall x, In x (sortStrings l) <-> In x l.
Proof.
  induction 1 as [ | x l Nx Nl [S M]]; simpl.
  - split; [ constructor | reflexivity ].
  - split.
    + apply insertSorted_sorted; [ now rewrite M | exact S ].
    + intros y. rewrite insertSorted_In, M. intuition congruence.
Qed.

Lemma strictly_sorted_NoDup (l : list string) :
  StronglySorted strLt l -> NoDup l.
Proof.
  induction 1 as [ | x r Sr IH Hx]; constructor; [ | exact IH ].
  intros H. rewrite Forall_forall in Hx.
  exact (strLt_irrefl x (Hx x H)).
Qed.
End TimelineOrder.

Section ParserResults.

Lemma mapGet_Some_In (k : string) (d : ProcessData) (m : ProcessMap) :
  mapGet k m = Some d -> In (k, d) m.
Proof.
  induction m as [ | [k0 v0] r IH]; simpl; [ discriminate | ].
  destruct (String.eqb k0 k) eqn:E.
  - apply String.eqb_eq in E. subst k0. intros [= ->]. now left.
  - intros H. right. now apply IH.
Qed.

Lemma parse_keys_NoDup (content : string) :
  NoDup (map fst (fst (parseLogFile content))).
Proof.
  destruct (parseLines_holds content) as (_ & K & _).
  unfold parseLogFile, finish; simpl. rewrite K.
  apply firstOccurrences_spec.
Qed.

Lemma parse_entry (content k : string) (d : ProcessData) :
  In (k, d) (fst (parseLogFile content)) ->
  seriesOf k (samplesOfLog content) = Some d.
Proof.
  intros H. destruct (parseLines_holds content) as (G & _ & _).
  rewrite <- G. apply mapGet_In; [ | exact H ].
  exact (parse_keys_NoDup content).
Qed.

Lemma seriesOf_Some (k : string) (l : list Sample) (d : ProcessData) :
  seriesOf k l = Some d ->
  let kept := filter (fun s => String.eqb (s_key s) k) l in
  kept <> [] /\ timestamps d = map s_timestamp kept /\ rss d = map s_rss kept.
Proof.
  unfold seriesOf. destruct (filter _ l) as [ | a r]; [ discriminate | ].
  intros [= <-]. simpl. repeat split. discriminate.
Qed.

Lemma seriesOf_In (l : list Sample) (s : Sample) :
  In s l ->
  exists d, seriesOf (s_key s) l = Some d /\ In (s_timestamp s) (timestamps d).
Proof.
  intros H. unfold seriesOf.
  assert (F : In s (filter (fun s0 => String.eqb (s_key s0) (s_key s)) l)).
  { apply filter_In. split; [ exact H | apply String.eqb_refl ]. }
  destruct (filter _ l) as [ | a r] eqn:E; [ contradiction | ].
  eexists. split; [ reflexivity | ]. cbn [timestamps].
  apply in_map_iff. now exists s.
Qed.

(** Every sample is counted under exactly one of the keys. *)
Lemma count_by_key (ks : list string) (l : list Sample) :
  NoDup ks -> (forall s, In s l -> In (s_key s) ks) ->
  list_sum (map (fun k => List.length
                            (filter (fun s => String.eqb (s_key s) k) l)) ks)
  = List.length l.
Proof.
  intros N. induction l as [ | s l IH]; intros C.
  - clear C. induction N as [ | k r _ _ IHr]; simpl;
      [ reflexivity | exact IHr ].
  - assert (One : forall ks', NoDup ks' ->
              list_sum (map (fun k => List.length
                 (filter (fun s0 => String.eqb (s_key s0) k) (s :: l))) ks')
              = (list_sum (map (fun k => List.length
                   (filter (fun s0 => String.eqb (s_key s0) k) l)) ks')
                 + if includes (s_key s) ks' then 1 else 0)%nat).
    { induction 1 as [ | k r Hk Hr IHr]; [ reflexivity | ].
      change (includes (s_key s) (k :: r))
        with (String.eqb k (s_key s) || includes (s_key s) r).
      rewrite !map_cons.
      change (list_sum (?a :: ?q)) with (a + list_sum q)%nat.
      rewrite IHr. cbn [filter].
      rewrite (String.eqb_sym k (s_key s)).
      destruct (String.eqb (s_key s) k) eqn:E; cbn [orb List.length].
      - apply String.eqb_eq in E. subst k.
        apply includes_not_In in Hk. rewrite Hk. lia.
      - lia. }
    rewrite (One ks N), IH by (intros; apply C; now right).
    assert (I : includes (s_key s) ks = true)
      by (apply includes_In, C; now left).
    rewrite I. simpl. lia.
Qed.
End ParserResults.

(** X1. The Series stored under a key holds the timestamps and the values
    of the data lines that carry this key, in the order of the log; a key
    that no data line carries is not in the map. *)
Theorem X1_series_by_key (content k : string) :
  mapGet k (fst (parseLogFile content)) = seriesOf k (samplesOfLog content).
Proof.
  destruct (parseLines_holds content) as (G & _ & _). apply G.
Qed.

(** X2. The keys of the map are the keys of the data lines in the order of
    their first occurrence, each once: this is the order of the legend and
    of the palette. *)
Theorem X2_keys_in_first_occurrence_order (content : string) :
  map fst (fst (parseLogFile content))
  = firstOccurrences (map s_key (samplesOfLog content))
  /\ NoDup (map fst (fst (parseLogFile content))).
Proof.
  split; [ | apply parse_keys_NoDup ].
  destruct (parseLines_holds content) as (_ & K & _). exact K.
Qed.

(** X3. The Timeline is strictly increasing in code-unit order, so without
    duplicates, and holds exactly the timestamps of the Series; the chart's
    [timestamps.indexOf] therefore finds every timestamp of a Series. *)
Theorem X3_timeline_sorted_union (content : string) :
  StronglySorted strLt (snd (parseLogFile content))
  /\ NoDup (snd (parseLogFile content))
  /\ (forall t,
        In t (snd (parseLogFile content))
        <-> exists k d,
              In (k, d) (fst (parseLogFile content)) /\ In t (timestamps d))
  /\ (forall k d t,
        In (k, d) (fst (parseLogFile content)) -> In t (timestamps d) ->
        (0 <= indexOf t (snd (parseLogFile content)))%Z).
Proof.
  destruct (parseLines_holds content) as (G & _ & T).
  destruct (firstOccurrences_spec
              (map s_timestamp (samplesOfLog content))) as [N M].
  assert (E : snd (parseLogFile content)
              = sortStrings (firstOccurrences
                               (map s_timestamp (samplesOfLog content)))).
  { unfold parseLogFile, finish; simpl. now rewrite T. }
  destruct (sortStrings_spec _ N) as [S MS].
  assert (U : forall t,
            In t (snd (parseLogFile content))
            <-> exists k d,
                  In (k, d) (fst (parseLogFile content))
                  /\ In t (timestamps d)).
  { intros t. rewrite E, MS, M, in_map_iff. split.
    - intros (s & <- & Hs).
      destruct (seriesOf_In _ s Hs) as (d & Hd & Ht).
      exists (s_key s), d. split; [ | exact Ht ].
      apply mapGet_Some_In. unfold parseLogFile, finish; simpl.
      now rewrite G.
    - intros (k & d & Hkd & Ht).
      apply parse_entry in Hkd. apply seriesOf_Some in Hkd.
      destruct Hkd as (_ & Hts & _). rewrite Hts in Ht.
      apply in_map_iff in Ht. destruct Ht as (s & <- & Hs).
      apply filter_In in Hs. exists s. split; [ reflexivity | tauto ]. }
  split; [ now rewrite E | ].
  split; [ rewrite E; now apply strictly_sorted_NoDup | ].
  split; [ exact U | ].
  intros k d t Hkd Ht.
  assert (I : In t (snd (parseLogFile content)))
    by (apply U; now exists k, d).
  apply includes_In in I.
  destruct (indexOfFrom_absent t (snd (parseLogFile content)) 0 ltac:(lia))
    as [A [B | B]]; [ | exact B ].
  unfold indexOf in *. rewrite B in A. rewrite I in A. discriminate.
Qed.

Lemma X3_timeline_sorted_union_witness :
  (0 <= indexOf "00:00:05" (snd (parseLogFile twoDaemonsLog)))%Z.
Proof.
  apply (proj2 (proj2 (proj2 (X3_timeline_sorted_union twoDaemonsLog)))
           "202-DaemonB"
           (mkProcessData ["00:00:00"; "00:00:05"] [numZ 50; numZ 50])
           "00:00:05").
  - vm_compute. right. left. reflexivity.
  - right. left. reflexivity.
Defined.

(** X4. Every Series in the map has at least one measurement and as many
    timestamps as values: the parser creates a Series only for a line it
    then stores. *)
Theorem X4_series_not_empty (content k : string) (d : ProcessData) :
  In (k, d) (fst (parseLogFile content)) ->
  (1 <= List.length (rss d))%nat
  /\ List.length (timestamps d) = List.length (rss d).
Proof.
  intros H. apply parse_entry in H. apply seriesOf_Some in H.
  destruct H as (Ne & Ht & Hr). rewrite Ht, Hr, !length_map.
  split; [ | reflexivity ].
  destruct (filter _ _); [ congruence | simpl; lia ].
Qed.

Lemma X4_series_not_empty_witness :
  (1 <= List.length [numZ 50; numZ 50])%nat
  /\ List.length ["00:00:00"; "00:00:05"] = List.length [numZ 50; numZ 50].
Proof.
  apply (X4_series_not_empty twoDaemonsLog "202-DaemonB"
           (mkProcessData ["00:00:00"; "00:00:05"] [numZ 50; numZ 50])).
  vm_compute. right. left. reflexivity.
Defined.

(** X5. The Series hold together as many measurements as the log has data
    lines of six fields: no such line is lost and none is stored twice. *)
Theorem X5_measurements_conserved (content : string) :
  totalMeasurements (fst (parseLogFile content))
  = List.length (filter sixFields
                   (skipn 2 (split (ascii_of_nat 10) content))).
Proof.
  assert (L : forall lines,
            List.length (samplesOf lines)
            = List.length (filter sixFields lines)).
  { induction lines as [ | line r IH]; [ reflexivity | ].
    rewrite samplesOf_cons, length_app, IH. simpl.
    unfold samplesOf, sampleOfLine, sixFields; simpl.
    destruct (split "|" (trim line))
      as [ | a [ | b [ | c [ | d [ | e [ | f [ | g q]]]]]]]; reflexivity. }
  rewrite <- L. fold (samplesOfLog content).
  destruct (parseLines_holds content) as (G & K & _).
  rewrite <- (count_by_key (map fst (fst (parseLogFile content)))).
  - unfold totalMeasurements. rewrite map_map.
    apply f_equal. apply map_ext_in. intros [k d] H. simpl.
    apply parse_entry in H. apply seriesOf_Some in H.
    destruct H as (_ & _ & Hr). now rewrite Hr, length_map.
  - apply parse_keys_NoDup.
  - intros s Hs. unfold parseLogFile, finish; simpl. rewrite K.
    apply firstOccurrences_spec. apply in_map_iff. now exists s.
Qed.

(** ** The size of the diagram *)

Section DiagramSize.

Lemma ceilDiv_bounds (n d : nat) :
  (1 <= d)%nat ->
  (n <= d * ceilDiv n d)%nat /\ (1 <= n -> d * ceilDiv n d < n + d)%nat.
Proof.
  intros Hd. unfold ceilDiv.
  pose proof (Nat.div_mod_eq (n + d - 1) d) as D.
  pose proof (Nat.mod_upper_bound (n + d - 1) d ltac:(lia)) as U.
  lia.
Qed.
End DiagramSize.

(** X6. The sampled timeline never has more points than the target density,
    which is at most 30, and on a timeline that is not empty it has more than
    half of it: from 30 timestamps on there are between 11 and 20 points,
    from 100 on between 16 and 30. *)
Theorem X6_sampled_size (ts : list string) :
  (List.length (sampledTimestamps ts) <= targetPoints (List.length ts))%nat
  /\ (targetPoints (List.length ts) <= 30)%nat
  /\ (1 <= List.length ts ->
      targetPoints (List.length ts)
      < 2 * List.length (sampledTimestamps ts))%nat.
Proof.
  rewrite sampled_everyNth. unfold everyNth.
  rewrite length_map, length_seq.
  set (n := List.length ts).
  assert (T30 : (targetPoints n <= 30)%nat).
  { unfold targetPoints.
    destruct (Nat.ltb_spec n 30); [ lia | ].
    destruct (Nat.ltb_spec n 100); lia. }
  destruct (Nat.eq_dec n 0) as [Z0 | NZ].
  - rewrite Z0. repeat split; vm_compute; lia.
  - assert (Hn : (1 <= n)%nat) by lia.
    pose proof (targetPoints_pos n Hn) as Ht.
    pose proof (stride_pos n Hn) as Hs.
    assert (Tn : (targetPoints n <= n)%nat).
    { unfold targetPoints.
      destruct (Nat.ltb_spec n 30); [ lia | ].
      destruct (Nat.ltb_spec n 100); lia. }
    destruct (ceilDiv_bounds n (targetPoints n) Ht) as [A1 A2].
    destruct (ceilDiv_bounds n (stride n) Hs) as [B1 B2].
    fold (stride n) in A1, A2. specialize (A2 Hn). specialize (B2 Hn).
    split; [ | split; [ exact T30 | intros _ ] ].
    + nia.
    + nia.
Qed.

Lemma X6_sampled_size_witness :
  (targetPoints (List.length (labels 41))
   < 2 * List.length (sampledTimestamps (labels 41)))%nat.
Proof.
  apply (proj2 (proj2 (X6_sampled_size (labels 41)))).
  vm_compute. lia.
Defined.

(** ** When the diagram is returned *)

Section DiagramReturns.

Lemma indexOfFrom_range (x : string) (l : list string) (i : Z) :
  (indexOfFrom i x l = -1
   \/ i <= indexOfFrom i x l < i + Z.of_nat (List.length l))%Z.
Proof.
  revert i. induction l as [ | y r IH]; intros i; simpl List.length; simpl.
  - now left.
  - destruct (String.eqb y x); [ right; lia | ].
    destruct (IH (i + 1)%Z) as [A | A]; [ now left | right; lia ].
Qed.

Lemma rssAt_defined (data : ProcessData) (t : string) :
  wfData data ->
  indexOf t (timestamps data) <> (-1)%Z ->
  exists v, rssAt data (indexOf t (timestamps data)) = Some v.
Proof.
  intros W N. unfold indexOf in *.
  destruct (indexOfFrom_range t (timestamps data) 0) as [A | A];
    [ contradiction | ].
  unfold rssAt.
  destruct (Z.ltb_spec (indexOfFrom 0 t (timestamps data)) 0); [ lia | ].
  destruct (nth_error (rss data)
              (Z.to_nat (indexOfFrom 0 t (timestamps data)))) eqn:E.
  - now eexists.
  - apply nth_error_None in E. unfold wfData in W. lia.
Qed.

Lemma nodeCell_returns (t : string) (i : nat) (e : string * ProcessData) :
  wfData (snd e) -> exists c, nodeCell t i e = Some c.
Proof.
  destruct e as [key data]. intros W. unfold nodeCell.
  destruct (Z.eqb_spec (indexOf t (timestamps data)) (-1)) as [E | N].
  - now eexists.
  - destruct (rssAt_defined data t W N) as (v & ->). now eexists.
Qed.

Lemma allSome_map {A B : Type} (f : A -> option B) (l : list A) :
  (forall x, In x l -> exists y, f x = Some y) ->
  exists r, allSome (map f l) = Some r.
Proof.
  induction l as [ | a l IH]; intros H; simpl.
  - now eexists.
  - destruct (H a (or_introl eq_refl)) as (y & ->).
    destruct IH as (r & ->); [ intros x Hx; apply H; now right | ].
    now eexists.
Qed.

Lemma allSome_mapIdxFrom {A B : Type} (f : A -> nat -> option B)
                         (l : list A) (i : nat) :
  (forall x k, nth_error l k = Some x -> exists y, f x (i + k)%nat = Some y) ->
  exists r, allSome (mapIdxFrom f i l) = Some r.
Proof.
  revert i. induction l as [ | a l IH]; intros i H; simpl.
  - now eexists.
  - destruct (H a 0%nat eq_refl) as (y & Hy).
    rewrite Nat.add_0_r in Hy. rewrite Hy.
    destruct (IH (S i)) as (r & ->).
    + intros x k Hk. destruct (H x (S k) Hk) as (z & Hz).
      exists z. rewrite <- Hz. f_equal. lia.
    + now eexists.
Qed.

Lemma allSome_None {A : Type} (l : list (option A)) :
  In None l -> allSome l = None.
Proof.
  induction l as [ | [a | ] l IH]; simpl; intros H.
  - contradiction.
  - destruct H as [H | H]; [ discriminate | ]. now rewrite IH.
  - reflexivity.
Qed.

Lemma subgraph_returns (processes : ProcessMap) (sampled : list string)
                       (t : string) (k : nat) :
  wfMap processes -> nth_error sampled k = Some t ->
  exists text,
    subgraph processes (map (aggregateAt processes) sampled) t k = Some text.
Proof.
  intros W H. unfold subgraph.
  destruct (allSome_map (nodeCell t k) processes) as (cells & ->).
  { intros e He. apply nodeCell_returns.
    unfold wfMap in W. rewrite Forall_forall in W. now apply W. }
  rewrite (map_nth_error _ _ _ H). now eexists.
Qed.
End DiagramReturns.

(** X7. [generateMermaidChart] returns a text whenever every Series has as
    many values as timestamps; it throws as soon as a Series without values
    has a timestamp among the sampled ones, [toFixed] being called on
    [undefined]. *)
Theorem X7_diagram_returns :
  (forall (processes : ProcessMap) (ts : list string),
     wfMap processes ->
     exists text, generateMermaidChart processes ts = Some text)
  /\ (forall (processes : ProcessMap) (ts : list string) (key t : string)
             (tss : list string),
        In (key, mkProcessData tss []) processes ->
        In t tss -> In t (sampledTimestamps ts) ->
        generateMermaidChart processes ts = None).
Proof.
  split.
  - intros processes ts W. unfold generateMermaidChart, mapIdx.
    destruct (allSome_mapIdxFrom
                (subgraph processes
                   (map (aggregateAt processes) (sampledTimestamps ts)))
                (sampledTimestamps ts) 0) as (r & ->).
    + intros x k Hk. now apply subgraph_returns.
    + now eexists.
  - intros processes ts key t tss He Ht Hs.
    unfold generateMermaidChart, mapIdx.
    apply In_nth_error in Hs. destruct Hs as (k & Hk).
    rewrite allSome_None; [ reflexivity | ].
    apply nth_error_In with k.
    rewrite (mapIdxFrom_nth _ _ 0 k t Hk). f_equal.
    unfold subgraph. rewrite allSome_None; [ reflexivity | ].
    apply in_map_iff. exists (key, mkProcessData tss []).
    split; [ | exact He ].
    unfold nodeCell. cbn [timestamps].
    apply includes_In in Ht.
    assert (N : (indexOf t tss =? -1)%Z = false)
      by (rewrite indexOf_absent, Ht; reflexivity).
    rewrite N. unfold rssAt. cbn [rss].
    destruct (indexOf t tss <? 0)%Z; [ reflexivity | ].
    now destruct (Z.to_nat (indexOf t tss)).
Qed.

Lemma X7_diagram_returns_witness :
  generateMermaidChart [("k", mkProcessData ["00:00:00"] [])] ["00:00:00"]
  = None.
Proof.
  apply (proj2 X7_diagram_returns
           [("k", mkProcessData ["00:00:00"] [])] ["00:00:00"]
           "k" "00:00:00" ["00:00:00"]).
  - left. reflexivity.
  - left. reflexivity.
  - vm_compute. left. reflexivity.
Defined.

(** ** The identifiers of the nodes *)

Section Identifiers.

Lemma cleanKey_length (s : string) :
  String.length (cleanKey s) = String.length s.
Proof. induction s as [ | c r IH]; simpl; [ | rewrite IH ]; reflexivity. Qed.

Lemma cleanKey_identChars (s : string) : identChars (cleanKey s) = true.
Proof.
  induction s as [ | c r IH]; simpl; [ reflexivity | ].
  rewrite IH, andb_true_r.
  destruct (isAlnum c) eqn:E; [ now rewrite E | reflexivity ].
Qed.

Lemma cleanKey_fixed (s : string) : identChars s = true -> cleanKey s = s.
Proof.
  induction s as [ | c r IH]; simpl; [ reflexivity | ].
  intros H. apply andb_true_iff in H. destruct H as [Hc Hr].
  rewrite (IH Hr). destruct (isAlnum c); [ reflexivity | ].
  simpl in Hc. apply Ascii.eqb_eq in Hc. now subst c.
Qed.
End Identifiers.

(** X8. Sanitizing a key keeps its length, leaves only letters, digits and
    underscores, and changes nothing in a text that has only those; so it is
    idempotent, and two keys that differ in one code unit that is not a
    letter or a digit get the same identifier. *)
Theorem X8_cleanKey_identifier :
  (forall s, String.length (cleanKey s) = String.length s)
  /\ (forall s, identChars (cleanKey s) = true)
  /\ (forall s, identChars s = true -> cleanKey s = s)
  /\ (forall s, cleanKey (cleanKey s) = cleanKey s)
  /\ (forall (a b : string) (c1 c2 : ascii),
        isAlnum c1 = false -> isAlnum c2 = false ->
        cleanKey (a ++ String c1 b) = cleanKey (a ++ String c2 b)).
Proof.
  split; [ exact cleanKey_length | ].
  split; [ exact cleanKey_identChars | ].
  split; [ exact cleanKey_fixed | ].
  split.
  - intros s. apply cleanKey_fixed, cleanKey_identChars.
  - intros a b c1 c2 H1 H2.
    induction a as [ | x a IH]; simpl.
    + now rewrite H1, H2.
    + now rewrite IH.
Qed.

Lemma X8_cleanKey_identifier_witness :
  cleanKey ("101" ++ String "-"%char "DaemonA")
  = cleanKey ("101" ++ String "_"%char "DaemonA").
Proof.
  apply (proj2 (proj2 (proj2 (proj2 X8_cleanKey_identifier)))
           "101" "DaemonA" "-"%char "_"%char); reflexivity.
Defined.

(** ** Values that are not finite *)

Section NotFinite.

Lemma js_max2_NaN_r (a : jsnum) : js_max2 a NaN = NaN.
Proof. destruct a; reflexivity. Qed.

Lemma fold_max_NaN (l : list jsnum) : fold_left js_max2 l NaN = NaN.
Proof. induction l as [ | x r IH]; simpl; [ reflexivity | exact IH ]. Qed.

Lemma fold_max_with_NaN (l : list jsnum) (a : jsnum) :
  In NaN l -> fold_left js_max2 l a = NaN.
Proof.
  revert a. induction l as [ | x r IH]; intros a H; simpl.
  - contradiction.
  - destruct H as [-> | H].
    + rewrite js_max2_NaN_r. apply fold_max_NaN.
    + now apply IH.
Qed.

Lemma js_max2_not_NaN (a b : jsnum) :
  a <> NaN -> b <> NaN -> js_max2 a b <> NaN.
Proof.
  intros Ha Hb. destruct a, b; try congruence;
    unfold js_max2; destruct (js_lt _ _); congruence.
Qed.

Lemma fold_max_not_NaN (l : list jsnum) (a : jsnum) :
  ~ In NaN l -> a <> NaN -> fold_left js_max2 l a <> NaN.
Proof.
  revert a. induction l as [ | x r IH]; intros a N Ha; simpl.
  - exact Ha.
  - apply IH.
    + intros H. apply N. now right.
    + apply js_max2_not_NaN; [ exact Ha | ].
      intros ->. apply N. now left.
Qed.

Lemma fold_max_PInf_acc (l : list jsnum) :
  ~ In NaN l -> fold_left js_max2 l PInf = PInf.
Proof.
  induction l as [ | x r IH]; intros N; cbn [fold_left]; [ reflexivity | ].
  assert (E : js_max2 PInf x = PInf).
  { destruct x; try reflexivity. exfalso. apply N. now left. }
  rewrite E. apply IH. intros H. apply N. now right.
Qed.

Lemma fold_max_with_PInf (l : list jsnum) (a : jsnum) :
  In PInf l -> ~ In NaN l -> a <> NaN -> fold_left js_max2 l a = PInf.
Proof.
  revert a. induction l as [ | x r IH]; intros a H N Ha; cbn [fold_left].
  - contradiction.
  - assert (Nr : ~ In NaN r) by (intros K; apply N; now right).
    destruct H as [-> | H].
    + assert (E : js_max2 a PInf = PInf)
        by (destruct a; [ congruence | reflexivity .. ]).
      rewrite E. now apply fold_max_PInf_acc.
    + apply IH; [ exact H | exact Nr | ].
      apply js_max2_not_NaN; [ exact Ha | ].
      intros ->. apply N. now left.
Qed.

(** With the bound +Infinity the grid loop never leaves. *)
Lemma grid_loop_forever {A : Type} (body : jsnum -> A) (fuel : nat) (z : Z) :
  forLoop fuel (fun i => js_le i PInf) (fun i => js_add i gridInterval) body
          (numZ z)
  = None.
Proof.
  revert z. induction fuel as [ | f IH]; intros z; [ reflexivity | ].
  rewrite forLoop_unfold. cbv beta.
  change (js_le (numZ z) PInf) with true. cbv iota.
  change (js_add (numZ z) gridInterval) with (js_add (numZ z) (numZ 500)).
  now rewrite numZ_add, IH.
Qed.
End NotFinite.

(** X9. One value that is NaN makes the maximum NaN: the vertical maximum and
    the vertical scale of the chart are NaN, the chart is returned without
    any grid line or axis label, and the summary prints NaN as the maximum.
    A last line cut after its fifth pipe is such a record: it has six fields
    and its resident size parses to NaN. *)
Theorem X9_nan_value_degrades_chart :
  (forall (processes : ProcessMap) (ts : list string),
     In NaN (allRss processes) ->
     maxRss processes ts = NaN
     /\ yAxisMax processes ts = NaN
     /\ yScale processes ts = NaN
     /\ toFixed 2 (summaryMaxRss processes) = "NaN"
     /\ forall fuel : nat,
          (List.length ts <= fuel)%nat ->
          exists chart : SvgChart,
            generateSvg fuel processes ts = Some chart
            /\ svg_gridLines chart = [] /\ svg_yLabels chart = [])
  /\ In NaN (allRss (fst (parseLogFile truncatedLog))).
Proof.
  split.
  - intros processes ts H.
    assert (M : maxRss processes ts = NaN).
    { unfold maxRss, maxIndividualRss, mathMax at 1. simpl.
      unfold mathMax at 1. rewrite (fold_max_with_NaN _ NInf H).
      reflexivity. }
    assert (Y : yAxisMax processes ts = NaN)
      by (unfold yAxisMax; now rewrite M).
    assert (S : yScale processes ts = NaN)
      by (unfold yScale; now rewrite Y).
    split; [ exact M | ]. split; [ exact Y | ]. split; [ exact S | ].
    split.
    { unfold summaryMaxRss, mathMax. now rewrite (fold_max_with_NaN _ NInf H). }
    intros fuel Hf.
    destruct (xLabels_returns ts (xScale ts) fuel Hf) as (xl & Hx).
    unfold generateSvg. rewrite Y, Hx.
    assert (G : forall ys, gridLines fuel NaN ys = Some []).
    { intros ys. unfold gridLines. now rewrite forLoop_unfold. }
    rewrite G. eexists. repeat split.
  - vm_compute. right. left. reflexivity.
Qed.

Lemma X9_nan_value_degrades_chart_witness :
  yAxisMax (fst (parseLogFile truncatedLog)) (snd (parseLogFile truncatedLog))
  = NaN.
Proof.
  apply (proj1 X9_nan_value_degrades_chart
           (fst (parseLogFile truncatedLog))
           (snd (parseLogFile truncatedLog))).
  vm_compute. right. left. reflexivity.
Defined.

(** X10. When a value is +Infinity and neither a value nor an aggregate is
    NaN, the vertical maximum is +Infinity and the grid loop of [generateSvg]
    has no last round: the chart is not returned, whatever the fuel. *)
Theorem X10_infinite_value_never_returns (processes : ProcessMap)
                                         (ts : list string) :
  In PInf (allRss processes) ->
  ~ In NaN (allRss processes) ->
  ~ In NaN (svgAggregatedRss processes ts) ->
  yAxisMax processes ts = PInf
  /\ forall fuel : nat, generateSvg fuel processes ts = None.
Proof.
  intros H N NA.
  assert (M : maxRss processes ts = PInf).
  { unfold maxRss, maxIndividualRss, maxAggregatedRss.
    unfold mathMax at 2.
    rewrite (fold_max_with_PInf _ NInf H N ltac:(discriminate)).
    unfold mathMax at 1. simpl.
    pose proof (fold_max_not_NaN _ NInf NA ltac:(discriminate)) as K.
    unfold mathMax. destruct (fold_left js_max2 _ NInf); congruence. }
  assert (Y : yAxisMax processes ts = PInf)
    by (unfold yAxisMax; now rewrite M).
  split; [ exact Y | ].
  intros fuel. unfold generateSvg, gridLines. rewrite Y.
  now rewrite grid_loop_forever.
Qed.

Lemma X10_infinite_value_never_returns_witness :
  generateSvg 1000 (fst (parseLogFile infinityLog))
              (snd (parseLogFile infinityLog))
  = None.
Proof.
  apply (X10_infinite_value_never_returns
           (fst (parseLogFile infinityLog)) (snd (parseLogFile infinityLog))).
  - vm_compute. left. reflexivity.
  - vm_compute. intros [H | []]. discriminate.
  - vm_compute. intros [H | []]. discriminate.
Defined.

(** ** The labels of the horizontal axis *)

Section AxisLabels.

Lemma numNat_add (a b : nat) :
  js_add (numNat a) (numNat b) = numNat (a + b).
Proof. unfold numNat. now rewrite numZ_add, Nat2Z.inj_add. Qed.

Lemma js_lt_numNat (a b : nat) : js_lt (numNat a) (numNat b) = (a <? b)%nat.
Proof.
  unfold numNat. rewrite js_lt_numZ.
  destruct (Z.ltb_spec (Z.of_nat a) (Z.of_nat b));
    destruct (Nat.ltb_spec a b); try reflexivity; lia.
Qed.

Lemma nthNum_numNat (l : list string) (k : nat) :
  nthNum l (numNat k) = nth_error l k.
Proof.
  unfold nthNum, numNat, numZ. simpl.
  destruct (Z.leb_spec 0 (Z.of_nat k)); [ | lia ].
  now rewrite Nat2Z.id.
Qed.

Lemma labelInterval_ceil (ts : list string) :
  labelInterval ts = numNat (ceilDiv (List.length ts) 15).
Proof.
  rewrite labelInterval_value. unfold numNat, ceilDiv. f_equal.
  rewrite Nat2Z.inj_div, Nat2Z.inj_sub, Nat2Z.inj_add by lia.
  reflexivity.
Qed.

(** The labels sit at the multiples of the interval [step]. *)
Lemma label_loop {A : Type} (n step : nat) (body : jsnum -> A) :
  (1 <= step)%nat ->
  forall (r k fuel : nat),
    (k + r = ceilDiv n step)%nat -> (r <= fuel)%nat ->
    forLoop fuel (fun i => js_lt i (numNat n))
            (fun i => js_add i (numNat step)) body (numNat (k * step))
    = Some (map (fun j => body (numNat (j * step))) (seq k r)).
Proof.
  intros Hs. destruct (ceilDiv_bounds n step Hs) as [B1 B2].
  induction r as [ | r IH]; intros k fuel Hk Hf; rewrite forLoop_unfold;
    cbv beta; rewrite js_lt_numNat.
  - destruct (Nat.ltb_spec (k * step) n) as [L | G]; [ | reflexivity ].
    exfalso. rewrite Nat.add_0_r in Hk. subst k. lia.
  - destruct (Nat.ltb_spec (k * step) n) as [L | G].
    + destruct fuel as [ | f]; [ lia | ].
      rewrite numNat_add.
      replace (k * step + step)%nat with (S k * step)%nat by lia.
      rewrite (IH (S k) f) by lia. reflexivity.
    + exfalso.
      assert (1 <= n)%nat by (destruct n; [ | lia ];
        unfold ceilDiv in Hk; rewrite Nat.div_small in Hk; lia).
      specialize (B2 ltac:(lia)).
      assert (S k * step <= ceilDiv n step * step)%nat
        by (apply Nat.mul_le_mono_r; lia).
      lia.
Qed.
End AxisLabels.

(** X12. With fuel for [length ts] rounds the loop of the horizontal labels
    ends; it writes at most 15 labels, at the indices 0, step, 2*step, ...
    for step = ceiling(length / 15), and each of them is a timestamp of the
    timeline, never [undefined]. *)
Theorem X12_axis_labels (ts : list string) (xs : jsnum) (fuel : nat) :
  (List.length ts <= fuel)%nat ->
  let step := ceilDiv (List.length ts) 15 in
  xLabels fuel ts xs
  = Some (map (fun j => (xOf xs (numNat (j * step)), nth_error ts (j * step)))
              (seq 0 (ceilDiv (List.length ts) step)))
  /\ (ceilDiv (List.length ts) step <= 15)%nat
  /\ forall j, (j < ceilDiv (List.length ts) step)%nat ->
       exists t, nth_error ts (j * step) = Some t.
Proof.
  intros Hf step. set (n := List.length ts) in *.
  destruct (Nat.eq_dec n 0) as [Z0 | NZ].
  - assert (E : ts = []) by (destruct ts; [ reflexivity | discriminate ]).
    subst ts. split; [ | split ].
    + unfold xLabels. now rewrite forLoop_unfold.
    + vm_compute. lia.
    + intros j Hj. vm_compute in Hj. lia.
  - assert (Hs : (1 <= step)%nat).
    { unfold step, ceilDiv. apply Nat.div_le_lower_bound; lia. }
    destruct (ceilDiv_bounds n 15 ltac:(lia)) as [A1 A2].
    destruct (ceilDiv_bounds n step Hs) as [B1 B2].
    fold step in A1, A2. specialize (A2 ltac:(lia)). specialize (B2 ltac:(lia)).
    assert (C15 : (ceilDiv n step <= 15)%nat) by nia.
    split; [ | split; [ exact C15 | ] ].
    + unfold xLabels. rewrite labelInterval_ceil. fold n. fold step.
      change (numZ 0) with (numNat (0 * step)).
      rewrite (label_loop n step _ Hs (ceilDiv n step) 0 fuel) by nia.
      apply f_equal. apply map_ext. intros j.
      now rewrite nthNum_numNat.
    + intros j Hj.
      destruct (nth_error ts (j * step)) eqn:E; [ now eexists | ].
      apply nth_error_None in E. fold n in E.
      assert (S j * step <= ceilDiv n step * step)%nat
        by (apply Nat.mul_le_mono_r; lia).
      lia.
Qed.

Lemma X12_axis_labels_witness :
  option_map (map snd) (xLabels 40 (labels 40) (numZ 1))
  = Some [Some "0"; Some "3"; Some "6"; Some "9"; Some "12"; Some "15";
          Some "18"; Some "21"; Some "24"; Some "27"; Some "30"; Some "33";
          Some "36"; Some "39"].
Proof.
  rewrite (proj1 (X12_axis_labels (labels 40) (numZ 1) 40
                    ltac:(vm_compute; lia))).
  vm_compute. reflexivity.
Defined.

(** ** The geometry of the chart *)

Section Geometry.






End Geometry.



(** ** From the sampler to the parser *)

Section SamplerRecords.

Lemma noChar_app (c : ascii) (a b : string) :
  noChar c (a ++ b) = noChar c a && noChar c b.
Proof.
  induction a as [ | x a IH]; simpl; [ reflexivity | ].
  now rewrite IH, andb_assoc.
Qed.

Lemma noWhite_app (a b : string) :
  noWhite (a ++ b) = noWhite a && noWhite b.
Proof.
  induction a as [ | x a IH]; simpl; [ reflexivity | ].
  now rewrite IH, andb_assoc.
Qed.

Lemma noWhite_noLF (s : string) :
  noWhite s = true -> noChar (ascii_of_nat 10) s = true.
Proof.
  induction s as [ | x r IH]; simpl; [ reflexivity | ].
  intros H. apply andb_true_iff in H. destruct H as [Hx Hr].
  rewrite (IH Hr), andb_true_r.
  destruct (Ascii.eqb_spec x (ascii_of_nat 10)) as [-> | N];
    [ discriminate | reflexivity ].
Qed.

(** Splitting at the first separator. *)
Lemma split_field (sep : ascii) (a rest : string) :
  noChar sep a = true ->
  split sep (a ++ String sep rest) = a :: split sep rest.
Proof.
  induction a as [ | x a IH]; simpl; intros H.
  - now rewrite Ascii.eqb_refl.
  - apply andb_true_iff in H. destruct H as [Hx Ha].
    apply negb_true_iff in Hx. now rewrite Hx, (IH Ha).
Qed.

Lemma split_last (sep : ascii) (a : string) :
  noChar sep a = true -> split sep a = [a].
Proof.
  induction a as [ | x a IH]; simpl; intros H; [ reflexivity | ].
  apply andb_true_iff in H. destruct H as [Hx Ha].
  apply negb_true_iff in Hx. now rewrite Hx, (IH Ha).
Qed.

Lemma append_nil_r_s (s : string) : s ++ EmptyString = s.
Proof. induction s as [ | x r IH]; simpl; [ | rewrite IH ]; reflexivity. Qed.

Lemma trimEnd_space (s : string) : trimEnd (s ++ " ") = trimEnd s.
Proof.
  induction s as [ | x r IH]; simpl; [ reflexivity | ]. now rewrite IH.
Qed.

Lemma noWhite_trimEnd (s : string) : noWhite s = true -> trimEnd s = s.
Proof.
  induction s as [ | x r IH]; simpl; intros H; [ reflexivity | ].
  apply andb_true_iff in H. destruct H as [Hx Hr].
  apply negb_true_iff in Hx. now rewrite (IH Hr), Hx.
Qed.

Lemma trimStart_keeps (s rest : string) :
  s <> EmptyString -> noWhite s = true -> trimStart (s ++ rest) = s ++ rest.
Proof.
  destruct s as [ | x r]; [ congruence | ]. simpl. intros _ H.
  apply andb_true_iff in H. destruct H as [Hx _].
  apply negb_true_iff in Hx. now rewrite Hx.
Qed.

Lemma trimEnd_snoc (s : string) (c : ascii) :
  isWhiteSpace c = false ->
  trimEnd (s ++ String c EmptyString) = s ++ String c EmptyString.
Proof.
  intros Hc. induction s as [ | x r IH]; simpl.
  - now rewrite Hc.
  - rewrite IH. destruct r; simpl; now rewrite andb_false_r.
Qed.

(** A token padded with spaces is given back by [trim]. *)
Lemma trim_right_padded (s : string) :
  s <> EmptyString -> noWhite s = true -> trim (s ++ " ") = s.
Proof.
  intros N W. unfold trim.
  now rewrite trimStart_keeps, trimEnd_space, noWhite_trimEnd.
Qed.

Lemma trim_padded (s : string) :
  s <> EmptyString -> noWhite s = true -> trim (String " " (s ++ " ")) = s.
Proof. intros N W. exact (trim_right_padded s N W). Qed.

Lemma trim_left_padded (s : string) :
  s <> EmptyString -> noWhite s = true -> trim (String " " s) = s.
Proof.
  intros N W. unfold trim. simpl trimStart.
  rewrite <- (append_nil_r_s s) at 1.
  now rewrite trimStart_keeps, append_nil_r_s, noWhite_trimEnd.
Qed.

Lemma removeFirst_suffix (s : string) :
  noChar "M" s = true -> removeFirst "MB" (s ++ "MB") = s.
Proof.
  induction s as [ | x r IH]; intros H; [ reflexivity | ].
  simpl in H. apply andb_true_iff in H. destruct H as [Hx Hr].
  apply negb_true_iff in Hx.
  change (removeFirst "MB" (String x r ++ "MB"))
    with (if String.prefix "MB" (String x (r ++ "MB"))
          then dropStr 2 (String x (r ++ "MB"))
          else String x (removeFirst "MB" (r ++ "MB"))).
  assert (P : String.prefix "MB" (String x (r ++ "MB")) = false).
  { cbn [String.prefix].
    destruct (ascii_dec "M" x) as [E | E]; [ | reflexivity ].
    subst x. rewrite Ascii.eqb_refl in Hx. discriminate. }
  now rewrite P, (IH Hr).
Qed.
End SamplerRecords.

Section RecordRoundTrip.

Ltac normalize_appends :=
  repeat (progress (rewrite ?append_assoc; cbn [append])).

Lemma logRecord_fields (ts pid name hu hc rs : string) :
  logRecord ts pid name hu hc rs
  = (ts ++ " ") ++ String "|"
      (String " " (pid ++ " ") ++ String "|"
         (String " " (name ++ " ") ++ String "|"
            (String " " (hu ++ "MB ") ++ String "|"
               (String " " (hc ++ "MB ") ++ String "|"
                  (String " " (rs ++ "MB")))))).
Proof. unfold logRecord. normalize_appends. reflexivity. Qed.

Lemma logRecord_ends (ts pid name hu hc rs : string) :
  logRecord ts pid name hu hc rs
  = (ts ++ " | " ++ pid ++ " | " ++ name ++ " | " ++ hu ++ "MB | " ++ hc
     ++ "MB | " ++ rs ++ "M") ++ String "B" EmptyString.
Proof. unfold logRecord. normalize_appends. reflexivity. Qed.

Lemma trim_logRecord (ts pid name hu hc rs : string) :
  ts <> EmptyString -> noWhite ts = true ->
  trim (logRecord ts pid name hu hc rs) = logRecord ts pid name hu hc rs.
Proof.
  intros N W. unfold trim.
  assert (S : trimStart (logRecord ts pid name hu hc rs)
              = logRecord ts pid name hu hc rs)
    by (unfold logRecord; now apply trimStart_keeps).
  rewrite S, logRecord_ends. now apply trimEnd_snoc.
Qed.

(** The six fields the parser finds in a record of the sampler. *)
Lemma record_split (r : Reading) :
  wellFormed r ->
  split "|" (trim (recordOf r))
  = [r_timestamp r ++ " "; String " " (r_pid r ++ " ");
     String " " (r_name r ++ " "); String " " (r_heapUsed r ++ "MB ");
     String " " (r_heapCap r ++ "MB "); String " " (r_rss r ++ "MB")].
Proof.
  intros ((Nt & Wt & Pt) & (Np & Wp & Pp) & (Nn & Wn & Pn) & Pu & _ & Pc & _
          & (Nr & Wr & Pr) & _).
  unfold recordOf. rewrite trim_logRecord by assumption.
  rewrite logRecord_fields.
  rewrite split_field by (rewrite noChar_app, Pt; reflexivity).
  rewrite split_field
    by (cbn [noChar]; rewrite noChar_app, Pp; reflexivity).
  rewrite split_field
    by (cbn [noChar]; rewrite noChar_app, Pn; reflexivity).
  rewrite split_field
    by (cbn [noChar]; rewrite noChar_app, Pu; reflexivity).
  rewrite split_field
    by (cbn [noChar]; rewrite noChar_app, Pc; reflexivity).
  rewrite split_last
    by (cbn [noChar]; rewrite noChar_app, Pr; reflexivity).
  reflexivity.
Qed.

Lemma record_trims (r : Reading) :
  wellFormed r ->
  trim (r_timestamp r ++ " ") = r_timestamp r
  /\ trim (String " " (r_pid r ++ " ")) = r_pid r
  /\ trim (String " " (r_name r ++ " ")) = r_name r
  /\ trim (String " " (r_rss r ++ "MB")) = r_rss r ++ "MB".
Proof.
  intros ((Nt & Wt & _) & (Np & Wp & _) & (Nn & Wn & _) & _ & _ & _ & _
          & (Nr & Wr & _) & _).
  split; [ now apply trim_right_padded | ].
  split; [ now apply trim_padded | ].
  split; [ now apply trim_padded | ].
  apply trim_left_padded.
  - destruct (r_rss r); [ congruence | discriminate ].
  - now rewrite noWhite_app, Wr.
Qed.

Lemma sampleOfLine_record (r : Reading) :
  wellFormed r -> sampleOfLine (recordOf r) = Some (sampleOfReading r).
Proof.
  intros W. unfold sampleOfLine. rewrite (record_split r W).
  destruct (record_trims r W) as (T1 & T2 & T3 & T4).
  rewrite T1, T2, T3, T4.
  destruct W as (_ & _ & _ & _ & _ & _ & _ & _ & M).
  now rewrite (removeFirst_suffix _ M).
Qed.

Lemma recordOf_noLF (r : Reading) :
  wellFormed r -> noChar (ascii_of_nat 10) (recordOf r) = true.
Proof.
  intros ((_ & Wt & _) & (_ & Wp & _) & (_ & Wn & _) & _ & Lu & _ & Lc
          & (_ & Wr & _) & _).
  unfold recordOf, logRecord.
  repeat (rewrite noChar_app || cbn [noChar append]).
  rewrite (noWhite_noLF _ Wt), (noWhite_noLF _ Wp), (noWhite_noLF _ Wn),
          (noWhite_noLF _ Wr), Lu, Lc.
  reflexivity.
Qed.

Lemma samplesOf_records (readings : list Reading) :
  Forall wellFormed readings ->
  samplesOf (map recordOf readings) = map sampleOfReading readings.
Proof.
  induction 1 as [ | r l Hr Hl IH]; [ reflexivity | ].
  cbn [map]. rewrite samplesOf_cons, IH.
  unfold samplesOf at 1. cbn [flat_map].
  now rewrite (sampleOfLine_record r Hr).
Qed.

Lemma samplesOf_app (a b : list string) :
  samplesOf (a ++ b) = (samplesOf a ++ samplesOf b)%list.
Proof. unfold samplesOf. apply flat_map_app. Qed.

Lemma nl_app (x : string) : nl ++ x = String (ascii_of_nat 10) x.
Proof. reflexivity. Qed.

Lemma split_linesText (l : list string) :
  Forall (fun r => noChar (ascii_of_nat 10) r = true) l ->
  split (ascii_of_nat 10) (linesText l) = (l ++ [EmptyString])%list.
Proof.
  induction 1 as [ | r l Hr Hl IH]; [ reflexivity | ].
  cbn [linesText fold_right]. fold (linesText l).
  change (r ++ nl ++ linesText l)
    with (r ++ String (ascii_of_nat 10) (linesText l)).
  now rewrite (split_field _ _ _ Hr), IH.
Qed.

Lemma writtenLog_text (date : string) (readings : list Reading) :
  writtenLog date readings
  = logHeader date ++ linesText (map recordOf readings).
Proof.
  unfold writtenLog. generalize (logHeader date) as log.
  induction readings as [ | r l IH]; intros log; cbn [fold_left map].
  - cbn [linesText fold_right]. now rewrite append_nil_r_s.
  - rewrite IH. unfold appendRecord. cbn [linesText fold_right].
    now rewrite !append_assoc.
Qed.

Lemma split_writtenLog (date : string) (readings : list Reading) :
  noChar (ascii_of_nat 10) date = true ->
  Forall wellFormed readings ->
  skipn 2 (split (ascii_of_nat 10) (writtenLog date readings))
  = (map recordOf readings ++ [EmptyString])%list.
Proof.
  intros D W. rewrite writtenLog_text. unfold logHeader.
  rewrite !append_assoc, !nl_app, <- append_assoc.
  rewrite split_field by (rewrite noChar_app, D; reflexivity).
  rewrite split_field by reflexivity.
  cbn [skipn]. apply split_linesText.
  apply Forall_map. revert W. apply Forall_impl. exact recordOf_noLF.
Qed.
End RecordRoundTrip.

(** X16. A record written by the sampler, with a timestamp, a process id, a
    name and a resident size that are tokens and heap fields without pipe,
    is read back by the parser as the sample of this timestamp, this id and
    name, and the number that the resident size denotes: the unit suffix is
    removed, the heap fields are dropped. *)
Theorem X16_record_round_trip (st : ParseState) (r : Reading) :
  wellFormed r ->
  sampleOfLine (recordOf r) = Some (sampleOfReading r)
  /\ parseLine st (recordOf r)
     = addSample st (r_timestamp r) (r_pid r) (r_name r) (r_rss r ++ "MB")
  /\ removeFirst "MB" (r_rss r ++ "MB") = r_rss r.
Proof.
  intros W. split; [ now apply sampleOfLine_record | ].
  split.
  - unfold parseLine. rewrite (record_split r W).
    destruct (record_trims r W) as (T1 & T2 & T3 & T4).
    cbn [List.length Nat.eqb negb map]. now rewrite T1, T2, T3, T4.
  - destruct W as (_ & _ & _ & _ & _ & _ & _ & _ & M).
    now apply removeFirst_suffix.
Qed.

Lemma X16_record_round_trip_witness :
  sampleOfLine
    (recordOf (mkReading "00:00:05" "101" "GradleDaemon" "10.0" "20.0" "150.5"))
  = Some (sampleOfReading
            (mkReading "00:00:05" "101" "GradleDaemon" "10.0" "20.0" "150.5")).
Proof.
  apply (X16_record_round_trip initState
           (mkReading "00:00:05" "101" "GradleDaemon" "10.0" "20.0" "150.5")).
  unfold wellFormed, token; cbn [r_timestamp r_pid r_name r_heapUsed
                                  r_heapCap r_rss].
  repeat split; try discriminate; reflexivity.
Defined.

(** X17. The log that the sampler leaves after writing the header and then
    one record per reading is parsed into exactly these readings: the data
    lines give their samples in the order written, and the Series of a key
    holds the readings of this key, in that order. *)
Theorem X17_written_log_parses_back (date : string) (readings : list Reading)
                                    (k : string) :
  noChar (ascii_of_nat 10) date = true ->
  Forall wellFormed readings ->
  samplesOfLog (writtenLog date readings) = map sampleOfReading readings
  /\ mapGet k (fst (parseLogFile (writtenLog date readings)))
     = seriesOf k (map sampleOfReading readings).
Proof.
  intros D W.
  assert (E : samplesOfLog (writtenLog date readings)
              = map sampleOfReading readings).
  { unfold samplesOfLog. rewrite (split_writtenLog date readings D W).
    rewrite samplesOf_app, (samplesOf_records readings W).
    apply app_nil_r. }
  split; [ exact E | ].
  destruct (parseLines_holds (writtenLog date readings)) as (G & _ & _).
  unfold parseLogFile, finish; cbn [fst]. now rewrite G, E.
Qed.

Lemma X17_written_log_parses_back_witness :
  samplesOfLog
    (writtenLog "Mon Jan 1"
       [mkReading "00:00:00" "101" "GradleDaemon" "10.0" "20.0" "100.0";
        mkReading "00:00:05" "101" "GradleDaemon" "11.0" "20.0" "150.5"])
  = map sampleOfReading
      [mkReading "00:00:00" "101" "GradleDaemon" "10.0" "20.0" "100.0";
       mkReading "00:00:05" "101" "GradleDaemon" "11.0" "20.0" "150.5"].
Proof.
  apply (X17_written_log_parses_back "Mon Jan 1"
           [mkReading "00:00:00" "101" "GradleDaemon" "10.0" "20.0" "100.0";
            mkReading "00:00:05" "101" "GradleDaemon" "11.0" "20.0" "150.5"]
           EmptyString).
  - reflexivity.
  - repeat constructor; try discriminate.
Defined.

(** ** The order of the timestamps of the sampler *)

Section TimestampOrder.

Lemma pad2_digits (n : nat) :
  (n < 100)%nat ->
  pad2 n
  = String (digitChar (n / 10))
      (String (digitChar (n mod 10)) EmptyString).
Proof.
  intros H. do 100 (destruct n as [ | n]; [ reflexivity | ]). lia.
Qed.

Lemma digitChar_compare (a b : nat) :
  (a < 10)%nat -> (b < 10)%nat ->
  Ascii.compare (digitChar a) (digitChar b) = Nat.compare a b.
Proof.
  intros Ha Hb.
  do 10 (destruct a as [ | a];
         [ do 10 (destruct b as [ | b]; [ reflexivity | ]); lia | ]).
  lia.
Qed.

Lemma compare_cons_digit (a b : nat) (s t : string) :
  (a < 10)%nat -> (b < 10)%nat ->
  String.compare (String (digitChar a) s) (String (digitChar b) t)
  = match Nat.compare a b with
    | Eq => String.compare s t
    | c => c
    end.
Proof.
  intros Ha Hb. cbn [String.compare]. now rewrite digitChar_compare.
Qed.

Lemma compare_cons_same (c : ascii) (s t : string) :
  String.compare (String c s) (String c t) = String.compare s t.
Proof. cbn [String.compare]. now rewrite ascii_compare_refl. Qed.

Lemma two_digits (n : nat) :
  (n < 100)%nat ->
  (n / 10 < 10 /\ n mod 10 < 10 /\ n = 10 * (n / 10) + n mod 10)%nat.
Proof.
  intros H. pose proof (Nat.div_mod_eq n 10).
  pose proof (Nat.mod_upper_bound n 10 ltac:(lia)). lia.
Qed.

(** Hours, minutes and seconds of an elapsed time below 100 hours. *)
Lemma hours_minutes_seconds (e : nat) :
  (e < 100 * 3600)%nat ->
  (e / 3600 < 100 /\ e mod 3600 / 60 < 60 /\ e mod 60 < 60
   /\ e = 3600 * (e / 3600) + 60 * (e mod 3600 / 60) + e mod 60)%nat.
Proof.
  intros H.
  pose proof (Nat.div_mod_eq e 3600) as D1.
  pose proof (Nat.mod_upper_bound e 3600 ltac:(lia)) as U1.
  pose proof (Nat.div_mod_eq (e mod 3600) 60) as D2.
  pose proof (Nat.mod_upper_bound (e mod 3600) 60 ltac:(lia)) as U2.
  pose proof (Nat.mod_upper_bound e 60 ltac:(lia)) as U3.
  assert (M : (e mod 3600 mod 60 = e mod 60)%nat).
  { pose proof (Nat.Div0.mod_mul_r e 60 60) as R.
    change (60 * 60)%nat with 3600%nat in R.
    symmetry. apply Nat.mod_unique with (q := ((e / 60) mod 60)%nat); lia. }
  lia.
Qed.
End TimestampOrder.

(** X18. Below 100 hours the timestamps that the sampler prints are ordered
    as the elapsed times are, so the sorted Timeline is in time order.  From
    100 hours on the hour field has three digits and this fails: the
    timestamp of 100 hours sorts before that of 99:59:59, and the parser
    puts it first. *)
Theorem X18_timestamp_order :
  (forall e1 e2 : nat,
     (e1 < e2)%nat -> (e2 < 100 * 3600)%nat ->
     strLt (formatTimestamp e1) (formatTimestamp e2))
  /\ formatTimestamp (100 * 3600) = "100:00:00"
  /\ formatTimestamp (100 * 3600 - 1) = "99:59:59"
  /\ strLt (formatTimestamp (100 * 3600)) (formatTimestamp (100 * 3600 - 1))
  /\ snd (parseLogFile
            (writtenLog "Mon Jan 1"
               [mkReading (formatTimestamp (100 * 3600 - 1)) "101"
                          "GradleDaemon" "10.0" "20.0" "100.0";
                mkReading (formatTimestamp (100 * 3600)) "101"
                          "GradleDaemon" "10.0" "20.0" "100.0"]))
     = ["100:00:00"; "99:59:59"].
Proof.
  split.
  - intros e1 e2 L B.
    destruct (hours_minutes_seconds e1 ltac:(lia)) as (H1 & M1 & S1 & E1).
    destruct (hours_minutes_seconds e2 B) as (H2 & M2 & S2 & E2).
    unfold strLt, formatTimestamp.
    set (h1 := (e1 / 3600)%nat) in *. set (m1 := (e1 mod 3600 / 60)%nat) in *.
    set (s1 := (e1 mod 60)%nat) in *.
    set (h2 := (e2 / 3600)%nat) in *. set (m2 := (e2 mod 3600 / 60)%nat) in *.
    set (s2 := (e2 mod 60)%nat) in *.
    destruct (two_digits h1 H1) as (A1 & A2 & A3).
    destruct (two_digits m1 ltac:(lia)) as (A4 & A5 & A6).
    destruct (two_digits s1 ltac:(lia)) as (A7 & A8 & A9).
    destruct (two_digits h2 H2) as (B1 & B2 & B3).
    destruct (two_digits m2 ltac:(lia)) as (B4 & B5 & B6).
    destruct (two_digits s2 ltac:(lia)) as (B7 & B8 & B9).
    rewrite !pad2_digits by lia. cbn [append].
    rewrite !compare_cons_digit, !compare_cons_same, !compare_cons_digit,
            !compare_cons_same, !compare_cons_digit by assumption.
    cbn [String.compare].
    destruct (Nat.compare_spec (h1 / 10) (h2 / 10)); try reflexivity;
      try lia.
    destruct (Nat.compare_spec (h1 mod 10) (h2 mod 10)); try reflexivity;
      try lia.
    destruct (Nat.compare_spec (m1 / 10) (m2 / 10)); try reflexivity;
      try lia.
    destruct (Nat.compare_spec (m1 mod 10) (m2 mod 10)); try reflexivity;
      try lia.
    destruct (Nat.compare_spec (s1 / 10) (s2 / 10)); try reflexivity;
      try lia.
    destruct (Nat.compare_spec (s1 mod 10) (s2 mod 10)); try reflexivity;
      lia.
  - repeat split; vm_compute; reflexivity.
Qed.

Lemma X18_timestamp_order_witness :
  strLt (formatTimestamp 3599) (formatTimestamp 3600).
Proof.
  apply (proj1 X18_timestamp_order 3599%nat 3600%nat).
  - apply Nat.ltb_lt. vm_compute. reflexivity.
  - apply Nat.ltb_lt. vm_compute. reflexivity.
Defined.

(** ** The nodes of a subgraph *)

(** X19. In the subgraph of a sampled timestamp a Series that keeps the
    invariant gets a node exactly when it has an entry at the timestamp; the
    node carries the index of the subgraph in its identifier and the first
    value of the Series at the timestamp, rounded to an integer, in its
    label.  The subgraph therefore lists as many process nodes as there are
    Series with an entry there. *)
Theorem X19_subgraph_nodes (t : string) (i : nat) :
  (forall (key : string) (data : ProcessData),
     wfData data ->
     nodeCell t i (key, data)
     = Some (match entryAt t (timestamps data) (rss data) with
             | Some v => nodeText key i v
             | None => EmptyString
             end)
     /\ (entryAt t (timestamps data) (rss data) = None
         <-> includes t (timestamps data) = false))
  /\ (forall processes : ProcessMap,
        wfMap processes ->
        exists cells,
          allSome (map (nodeCell t i) processes) = Some cells
          /\ List.length (filterBoolean cells)
             = List.length
                 (filter (fun e => includes t (timestamps (snd e)))
                         processes)).
Proof.
  assert (A : forall key data, wfData data ->
              nodeCell t i (key, data)
              = Some (match entryAt t (timestamps data) (rss data) with
                      | Some v => nodeText key i v
                      | None => EmptyString
                      end)
              /\ (entryAt t (timestamps data) (rss data) = None
                  <-> includes t (timestamps data) = false)).
  { intros key data W. unfold nodeCell. rewrite indexOf_absent.
    destruct (includes t (timestamps data)) eqn:I; cbn [negb].
    - destruct (indexOfFrom_entryAt t _ _ 0%Z W I) as (v & Hv & Hi & Hn).
      rewrite Hv. unfold rssAt, indexOf.
      destruct (Z.ltb_spec (indexOfFrom 0 t (timestamps data)) 0);
        [ lia | ].
      rewrite Z.sub_0_r in Hn. rewrite Hn.
      split; [ reflexivity | split; discriminate ].
    - rewrite (includes_false_entryAt _ _ _ I).
      split; [ reflexivity | split; reflexivity ]. }
  split; [ exact A | ].
  intros processes W. induction W as [ | [key data] r Hd Hr IH].
  - exists []. split; reflexivity.
  - destruct IH as (cells & E & L). simpl in Hd.
    destruct (A key data Hd) as [N Z].
    cbn [map allSome]. rewrite N, E. eexists. split; [ reflexivity | ].
    cbn [filter snd]. unfold filterBoolean in *. cbn [filter].
    destruct (includes t (timestamps data)) eqn:I.
    + destruct (entryAt t (timestamps data) (rss data)) eqn:EA.
      * cbn [isEmpty nodeText append negb List.length]. now rewrite L.
      * exfalso. destruct Z as [Z1 _]. specialize (Z1 eq_refl). discriminate.
    + destruct Z as [_ Z2]. rewrite (Z2 eq_refl).
      cbn [isEmpty negb]. exact L.
Qed.

Lemma X19_subgraph_nodes_witness :
  nodeCell "00:00:10" 2
    ("202-DaemonB", mkProcessData ["00:00:00"; "00:00:05"] [numZ 50; numZ 50])
  = Some EmptyString.
Proof.
  apply (proj1 (proj1 (X19_subgraph_nodes "00:00:10" 2) "202-DaemonB"
                  (mkProcessData ["00:00:00"; "00:00:05"]
                                 [numZ 50; numZ 50])
                  eq_refl)).
Defined.

(** ** Reading and printing a resident size *)

Section DecimalText.

Lemma digitChar_digit (d : nat) :
  (d < 10)%nat ->
  isDigit (digitChar d) = true /\ digitVal (digitChar d) = Z.of_nat d.
Proof.
  intros H. do 10 (destruct d as [ | d]; [ split; reflexivity | ]). lia.
Qed.

Lemma readDigits_digit (c : ascii) (r : string) (acc : Z) (cnt : nat) :
  isDigit c = true ->
  readDigits (String c r) acc cnt
  = readDigits r (acc * 10 + digitVal c)%Z (S cnt).
Proof. intros H. cbn [readDigits]. now rewrite H. Qed.

(** Reading the decimal text of a number. *)
Lemma readDigits_uint (u : Decimal.uint) (rest : string) :
  forall (a cnt : nat),
    readDigits (NilEmpty.string_of_uint u ++ rest) (Z.of_nat a) cnt
    = readDigits rest (Z.of_nat (Nat.of_uint_acc u a))
                 (Decimal.nb_digits u + cnt).
Proof.
  induction u as [ | u IH | u IH | u IH | u IH | u IH | u IH | u IH | u IH
                   | u IH | u IH ]; intros a cnt;
    [ reflexivity | .. ];
    cbn [NilEmpty.string_of_uint append Nat.of_uint_acc Decimal.nb_digits];
    rewrite readDigits_digit by reflexivity;
    match goal with
    | |- readDigits _ ?z _ = readDigits _ (Z.of_nat (Nat.of_uint_acc u ?k)) _ =>
        replace z with (Z.of_nat k)
          by (rewrite ?Nat2Z.inj_succ, Nat.tail_mul_spec, Nat2Z.inj_mul;
              cbv [digitVal]; simpl Z.of_nat; lia)
    end;
    rewrite IH; f_equal; lia.
Qed.

Lemma natStr_head (n : nat) :
  exists c r, natStr n = String c r /\ isDigit c = true.
Proof.
  unfold natStr. destruct (Nat.to_uint n) as [ | u | u | u | u | u | u | u | u
                                              | u | u ] eqn:E;
    try (eexists; eexists; split; reflexivity).
  exfalso. pose proof (DecimalNat.Unsigned.of_to n) as H.
  rewrite E in H. simpl in H. subst n. discriminate.
Qed.

Lemma parseFloat_digit_head (c : ascii) (r : string) :
  isDigit c = true ->
  parseFloat (String c r)
  = let '(ip, ni, r1) := readDigits (String c r) 0%Z O in
    let '(m, nf, r2) :=
      match r1 with
      | String "."%char r' => readDigits r' ip O
      | _ => (ip, O, r1)
      end in
    match ni, nf with
    | O, O => NaN
    | _, _ => Fin (scale10 m (readExponent r2 - Z.of_nat nf))
    end.
Proof.
  destruct c as [[] [] [] [] [] [] [] []]; intros H; try discriminate H;
    reflexivity.
Qed.

(** The number denoted by [n.d]. *)
Lemma parseFloat_one_decimal (n d : nat) :
  (d < 10)%nat ->
  parseFloat (natStr n ++ "." ++ String (digitChar d) EmptyString)
  = Fin (Qred (Z.of_nat (10 * n + d) # 10)).
Proof.
  intros Hd. destruct (digitChar_digit d Hd) as [D1 D2].
  destruct (natStr_head n) as (c & r & E & Hc).
  rewrite E. cbn [append]. rewrite parseFloat_digit_head by exact Hc.
  change (String c (r ++ String "." (String (digitChar d) EmptyString)))
    with (String c r ++ String "." (String (digitChar d) EmptyString)).
  rewrite <- E. unfold natStr.
  rewrite (readDigits_uint (Nat.to_uint n) _ 0 0).
  change (Nat.of_uint_acc (Nat.to_uint n) 0) with (Nat.of_uint (Nat.to_uint n)).
  rewrite DecimalNat.Unsigned.of_to.
  change (readDigits (String "." (String (digitChar d) EmptyString))
            (Z.of_nat n) (Decimal.nb_digits (Nat.to_uint n) + 0))
    with (Z.of_nat n, (Decimal.nb_digits (Nat.to_uint n) + 0)%nat,
          String "."%char (String (digitChar d) EmptyString)).
  cbv beta iota.
  rewrite readDigits_digit by exact D1. rewrite D2.
  cbn [readDigits]. cbv beta iota.
  destruct (Decimal.nb_digits (Nat.to_uint n) + 0)%nat;
    cbn [readExponent]; unfold scale10; simpl Z.sub; cbv iota;
    replace (Z.of_nat n * 10 + Z.of_nat d)%Z with (Z.of_nat (10 * n + d))
      by lia;
    reflexivity.
Qed.

Lemma qsign_nonneg (q : Q) :
  (0 <= q)%Q ->
  match qsign q with Lt => "-" | _ => EmptyString end = EmptyString.
Proof.
  intros H. unfold qsign. unfold Qle in H. simpl in H.
  destruct (Z.compare_spec (Qnum q) 0); try reflexivity. lia.
Qed.

Lemma Qfloor_half (k : Z) : Qfloor (inject_Z k + (1 # 2)) = k.
Proof.
  unfold Qfloor, Qplus, inject_Z; simpl.
  symmetry. apply Z.div_unique with (r := 1%Z); lia.
Qed.

Lemma padded_tenths (d : nat) :
  (d < 10)%nat ->
  padLeft 2 (zStr (Z.of_nat (10 * d)))
  = String (digitChar d) (String "0" EmptyString).
Proof.
  intros H. do 10 (destruct d as [ | d]; [ reflexivity | ]). lia.
Qed.
End DecimalText.

(** X20. For a resident size written with one decimal, [n.d] with n at most
    2^40, the summary prints what the parser read back with two decimals as
    [n.d0], and a node of the diagram prints the nearest integer, the larger
    one on a tie: [n] when d < 5 and [n+1] otherwise. *)
Theorem X20_decimal_round_trip (n d : nat) :
  (d < 10)%nat -> (Z.of_nat n <= 2 ^ 40)%Z ->
  toFixed 2 (parseFloat (natStr n ++ "." ++ String (digitChar d) EmptyString))
  = natStr n ++ "." ++ String (digitChar d) (String "0" EmptyString)
  /\ toFixed 0
       (parseFloat (natStr n ++ "." ++ String (digitChar d) EmptyString))
     = natStr (if (d <? 5)%nat then n else S n).
Proof.
  intros Hd _.
  rewrite (parseFloat_one_decimal n d Hd).
  set (q := Qred (Z.of_nat (10 * n + d) # 10)).
  assert (E : (q == inject_Z (Z.of_nat n)
                    + inject_Z (Z.of_nat d) / inject_Z 10)%Q).
  { unfold q. rewrite Qred_correct, Qmake_Qdiv.
    rewrite Nat2Z.inj_add, Nat2Z.inj_mul, inject_Z_plus, inject_Z_mult.
    change (inject_Z (Z.of_nat 10)) with (inject_Z 10).
    field; discriminate. }
  assert (P : (0 <= q)%Q).
  { rewrite E.
    assert (0 <= inject_Z (Z.of_nat n))%Q
      by (change 0%Q with (inject_Z 0); rewrite <- Zle_Qle; lia).
    assert (0 <= inject_Z (Z.of_nat d) / inject_Z 10)%Q.
    { apply Qle_shift_div_l; [ reflexivity | ].
      rewrite Qmult_0_l. change 0%Q with (inject_Z 0).
      rewrite <- Zle_Qle. lia. }
    lra. }
  split.
  - unfold toFixed. rewrite (qsign_nonneg q P).
    assert (F : (Qabs q * inject_Z (10 ^ Z.of_nat 2) + (1 # 2)
                 == inject_Z (Z.of_nat (100 * n + 10 * d)) + (1 # 2))%Q).
    { rewrite (Qabs_pos q P), E.
      rewrite Nat2Z.inj_add, !Nat2Z.inj_mul.
      rewrite inject_Z_plus, !inject_Z_mult.
      change (inject_Z (10 ^ Z.of_nat 2)) with (inject_Z 100).
      change (inject_Z (Z.of_nat 100)) with (inject_Z 100).
      change (inject_Z (Z.of_nat 10)) with (inject_Z 10).
      change (inject_Z 100) with (inject_Z 10 * inject_Z 10)%Q.
      field; discriminate. }
    rewrite F, Qfloor_half.
    change (10 ^ Z.of_nat 2)%Z with 100%Z.
    assert (Dv : (Z.of_nat (100 * n + 10 * d) / 100 = Z.of_nat n)%Z).
    { symmetry. apply Z.div_unique with (r := Z.of_nat (10 * d)); lia. }
    assert (Md : (Z.of_nat (100 * n + 10 * d) mod 100
                  = Z.of_nat (10 * d))%Z).
    { symmetry. apply Z.mod_unique with (q := Z.of_nat n); lia. }
    rewrite Dv, Md, (padded_tenths d Hd).
    unfold zStr. rewrite Nat2Z.id. reflexivity.
  - unfold toFixed. rewrite (qsign_nonneg q P).
    set (k := if (d <? 5)%nat then n else S n).
    assert (F : Qfloor (Qabs q * inject_Z (10 ^ Z.of_nat 0) + (1 # 2))
                = Z.of_nat k).
    { assert (G : (Qabs q * inject_Z (10 ^ Z.of_nat 0) + (1 # 2)
                   == inject_Z (Z.of_nat (20 * n + 2 * d + 10))
                      / inject_Z 20)%Q).
      { rewrite (Qabs_pos q P), E.
        rewrite !Nat2Z.inj_add, !Nat2Z.inj_mul.
        rewrite !inject_Z_plus, !inject_Z_mult.
        change (inject_Z (10 ^ Z.of_nat 0)) with (inject_Z 1).
        change (inject_Z (Z.of_nat 20)) with (inject_Z 20).
        change (inject_Z (Z.of_nat 2)) with (inject_Z 2).
        change (inject_Z (Z.of_nat 10)) with (inject_Z 10).
        change (inject_Z 20) with (inject_Z 2 * inject_Z 10)%Q.
        change (1 # 2) with (/ inject_Z 2)%Q.
        change (inject_Z 1) with 1%Q.
        field; repeat split; discriminate. }
      rewrite G, <- Zdiv_Qdiv. unfold k.
      destruct (Nat.ltb_spec d 5).
      - symmetry. apply Z.div_unique with (r := Z.of_nat (2 * d + 10)); lia.
      - symmetry. apply Z.div_unique with (r := Z.of_nat (2 * d - 10)); lia. }
    rewrite F. change (10 ^ Z.of_nat 0)%Z with 1%Z.
    rewrite Z.div_1_r. unfold zStr. rewrite Nat2Z.id.
    now rewrite append_nil_r_s.
Qed.

Lemma X20_decimal_round_trip_witness :
  toFixed 2 (parseFloat (natStr 150 ++ "." ++ String (digitChar 5) EmptyString))
  = natStr 150 ++ "." ++ String (digitChar 5) (String "0" EmptyString)
  /\ toFixed 0
       (parseFloat (natStr 150 ++ "." ++ String (digitChar 5) EmptyString))
     = natStr (if (5 <? 5)%nat then 150 else 151)%nat.
Proof.
  apply (X20_decimal_round_trip 150 5); [ lia | vm_compute; discriminate ].
Defined.

(* ================================================================== *)
(** * The edges in the text of the diagram *)

Section DiagramText.

Lemma split_not_nil (c : ascii) (s : string) : split c s <> [].
Proof.
  destruct s as [ | x r]; simpl; [ discriminate | ].
  destruct (Ascii.eqb x c); [ discriminate | ].
  destruct (split c r); discriminate.
Qed.

(** Splitting at a separator splits what is before it and what is after. *)
Lemma split_app_sep (c : ascii) (a b : string) :
  split c (a ++ String c b) = (split c a ++ split c b)%list.
Proof.
  induction a as [ | x a IH]; simpl.
  - now rewrite Ascii.eqb_refl.
  - destruct (Ascii.eqb x c); [ now rewrite IH | ].
    rewrite IH. destruct (split c a) as [ | h t] eqn:E.
    + now apply split_not_nil in E.
    + reflexivity.
Qed.

(** The lines of texts joined by a newline and an indentation. *)
Lemma textLines_join (p q x : string) (r : list string) :
  textLines (p ++ join (nl ++ q) (x :: r))
  = (textLines (p ++ x)
     ++ List.concat (map (fun y => textLines (q ++ y)) r))%list.
Proof.
  revert p x. induction r as [ | y r IH]; intros p x.
  - simpl. now rewrite app_nil_r.
  - change (join (nl ++ q) (x :: y :: r))
      with (x ++ (nl ++ q) ++ join (nl ++ q) (y :: r)).
    rewrite <- append_assoc, append_assoc with (a := nl).
    change (nl ++ q ++ join (nl ++ q) (y :: r))
      with (String (ascii_of_nat 10) (q ++ join (nl ++ q) (y :: r))).
    unfold textLines at 1. rewrite split_app_sep.
    fold (textLines (p ++ x)).
    fold (textLines (q ++ join (nl ++ q) (y :: r))).
    rewrite IH. reflexivity.
Qed.

Lemma in_textLines_join (p : string) (l : list string) (M : string) :
  In M (textLines (p ++ join (nl ++ p) l))
  <-> (l = [] /\ In M (textLines p))
      \/ exists x, In x l /\ In M (textLines (p ++ x)).
Proof.
  destruct l as [ | x r].
  - simpl join. rewrite append_nil_r_s. split.
    + intros H. left. now split.
    + intros [[_ H] | (x & [] & _)]. exact H.
  - rewrite textLines_join.
    change (textLines (p ++ x)
            ++ List.concat (map (fun y => textLines (p ++ y)) r))%list
      with (List.concat (map (fun y => textLines (p ++ y)) (x :: r))).
    rewrite in_concat. split.
    + intros (L & HL & HM). apply in_map_iff in HL.
      destruct HL as (y & <- & Hy). right. now exists y.
    + intros [[E _] | (y & Hy & HM)]; [ discriminate | ].
      exists (textLines (p ++ y)). split; [ | exact HM ].
      apply in_map_iff. now exists y.
Qed.

Lemma in_textLines_parts (x : string) (r : list string) (M : string) :
  In M (textLines (join nl (x :: r)))
  <-> exists y, In y (x :: r) /\ In M (textLines y).
Proof.
  pose proof (in_textLines_join EmptyString (x :: r) M) as H.
  change (EmptyString ++ join (nl ++ EmptyString) (x :: r))
    with (join nl (x :: r)) in H.
  rewrite H. split.
  - intros [[E _] | (y & Hy & HM)]; [ discriminate | ]. now exists y.
  - intros (y & Hy & HM). right. now exists y.
Qed.

Lemma textLines_oneLine (s : string) : oneLine s -> textLines s = [s].
Proof. apply split_last. Qed.

Lemma natStr_noLF (n : nat) : oneLine (natStr n).
Proof.
  unfold oneLine, natStr. induction (Nat.to_uint n); simpl; auto.
Qed.

Lemma natStr_noUnderscore (n : nat) : noChar "_" (natStr n) = true.
Proof. unfold natStr. induction (Nat.to_uint n); simpl; auto. Qed.

Lemma natStr_noSpace (n : nat) : noChar " " (natStr n) = true.
Proof. unfold natStr. induction (Nat.to_uint n); simpl; auto. Qed.

Lemma noSpace_noChar (s : string) : noSpace s = noChar " " s.
Proof. induction s as [ | c r IH]; simpl; [ | rewrite IH ]; reflexivity. Qed.

Lemma identChars_noChar (c : ascii) (s : string) :
  (isAlnum c || Ascii.eqb c "_")%bool = false ->
  identChars s = true -> noChar c s = true.
Proof.
  intros Hc. induction s as [ | x r IH]; simpl; [ reflexivity | ].
  intros H. apply andb_true_iff in H. destruct H as [Hx Hr].
  rewrite (IH Hr), andb_true_r.
  destruct (Ascii.eqb_spec x c) as [-> | N]; [ congruence | reflexivity ].
Qed.

Lemma cleanKey_noLF (s : string) : oneLine (cleanKey s).
Proof.
  apply identChars_noChar; [ reflexivity | apply cleanKey_identChars ].
Qed.

Lemma cleanKey_noSpace (s : string) : noChar " " (cleanKey s) = true.
Proof.
  apply identChars_noChar; [ reflexivity | apply cleanKey_identChars ].
Qed.

Lemma nodeId_noLF (key : string) (i : nat) : oneLine (nodeId key i).
Proof.
  unfold oneLine, nodeId. rewrite !noChar_app.
  rewrite (cleanKey_noLF key), (natStr_noLF i). reflexivity.
Qed.

Lemma nodeId_noSpace (key : string) (i : nat) : noSpace (nodeId key i) = true.
Proof.
  rewrite noSpace_noChar. unfold nodeId. rewrite !noChar_app.
  rewrite cleanKey_noSpace, natStr_noSpace. reflexivity.
Qed.

(** Cutting at the last underscore. *)
Lemma last_underscore (a b d e : string) :
  noChar "_" d = true -> noChar "_" e = true ->
  a ++ String "_" d = b ++ String "_" e -> a = b /\ d = e.
Proof.
  intros Hd He. revert b.
  induction a as [ | x a IH]; intros [ | y b] H; simpl in H.
  - injection H as H. now split.
  - injection H as Hy H. subst d.
    rewrite noChar_app in Hd. simpl in Hd.
    now rewrite andb_false_r in Hd.
  - injection H as Hx H. subst e.
    rewrite noChar_app in He. simpl in He.
    now rewrite andb_false_r in He.
  - injection H as Hx H. subst y.
    destruct (IH b H) as [-> ->]. now split.
Qed.

(** A node identifier tells the sanitized key and the index. *)
Lemma nodeId_inj (a b : string) (i j : nat) :
  nodeId a i = nodeId b j -> cleanKey a = cleanKey b /\ i = j.
Proof.
  unfold nodeId. intros H.
  change ("_" ++ natStr i) with (String "_" (natStr i)) in H.
  change ("_" ++ natStr j) with (String "_" (natStr j)) in H.
  apply last_underscore in H; try apply natStr_noUnderscore.
  destruct H as [H1 H2]. split; [ exact H1 | now apply natStr_inj ].
Qed.

(** The text of an edge tells the identifier and the two indices. *)
Lemma edge_text_inj (a b : string) (i j i' j' : nat) :
  nodeId a i ++ " --> " ++ nodeId a j = nodeId b i' ++ " --> " ++ nodeId b j' ->
  cleanKey a = cleanKey b /\ i = i' /\ j = j'.
Proof.
  intros H.
  assert (E : nodeId a i = nodeId b i').
  { apply (cut_at_space _ _ ("--> " ++ nodeId a j) ("--> " ++ nodeId b j'));
      [ apply nodeId_noSpace | apply nodeId_noSpace | exact H ]. }
  rewrite E in H. apply append_cancel_l in H. apply append_cancel_l in H.
  apply nodeId_inj in E. apply nodeId_inj in H.
  destruct E as [E1 E2], H as [_ H2]. now repeat split.
Qed.

Lemma edgeLine_series (key : string) (j : nat) :
  edgeLine key j (S j) = "    " ++ seriesEdgeText key j.
Proof. reflexivity. Qed.

(** An edge line has eight leading spaces, no more. *)
Lemma edgeLine_not_deeper (key : string) (j k : nat) (rest : string) :
  edgeLine key j k <> "         " ++ rest.
Proof.
  unfold edgeLine, nodeId. intros H.
  apply (append_cancel_l "        " _ (String " " rest)) in H.
  pose proof (cleanKey_noSpace key) as N.
  destruct (cleanKey key) as [ | c r]; simpl in H.
  - discriminate.
  - injection H as Hc _. subst c. discriminate.
Qed.

(** Past its spaces an edge line has an underscore. *)
Lemma edgeLine_underscore (key : string) (j k : nat) (rest : string) :
  noChar "_" rest = true -> edgeLine key j k <> "        " ++ rest.
Proof.
  unfold edgeLine, nodeId. intros N H.
  apply (append_cancel_l "        " _ rest) in H.
  rewrite <- H in N. rewrite !noChar_app in N. simpl in N.
  now rewrite andb_false_r in N.
Qed.

Lemma toFixed0_noLF (v : jsnum) : oneLine (toFixed 0 v).
Proof.
  destruct v as [ | | | q]; try reflexivity.
  unfold oneLine, toFixed. rewrite !noChar_app.
  unfold zStr. rewrite (natStr_noLF _).
  destruct (qsign q); reflexivity.
Qed.

Lemma nodeText_noLF (key : string) (i : nat) (v : jsnum) :
  oneLine key -> oneLine (nodeText key i v).
Proof.
  intros K. unfold oneLine, nodeText. rewrite !noChar_app.
  rewrite (nodeId_noLF key i), K, (toFixed0_noLF v). reflexivity.
Qed.

Lemma allSome_elements {A : Type} (l : list (option A)) (r : list A) :
  allSome l = Some r -> forall c, In c r -> In (Some c) l.
Proof.
  revert r. induction l as [ | [a | ] l IH]; intros r H c Hc; simpl in H.
  - injection H as <-. contradiction.
  - destruct (allSome l) as [r' | ]; [ | discriminate ].
    injection H as <-. destruct Hc as [-> | Hc].
    + now left.
    + right. now apply (IH r').
  - discriminate.
Qed.

Lemma nodeCell_text (t : string) (i : nat) (e : string * ProcessData)
                    (c : string) :
  nodeCell t i e = Some c ->
  c = EmptyString \/ exists v, c = nodeText (fst e) i v.
Proof.
  destruct e as [key data]. unfold nodeCell.
  destruct (indexOf t (timestamps data) =? -1)%Z.
  - intros H. injection H as <-. now left.
  - destruct (rssAt data (indexOf t (timestamps data))) as [v | ];
      [ | discriminate ].
    intros H. injection H as <-. right. now exists v.
Qed.

(** A line of a subgraph is its closing [end] or has more than eight
    leading spaces. *)
Lemma subgraph_lines (processes : ProcessMap) (aggregatedRss : list jsnum)
                     (t : string) (i : nat) (text M : string) :
  Forall (fun e => oneLine (fst e)) processes -> oneLine t ->
  subgraph processes aggregatedRss t i = Some text ->
  In M (textLines ("        " ++ text)) ->
  M = "        end" \/ exists rest, M = "         " ++ rest.
Proof.
  intros K T H HM. unfold subgraph in H.
  destruct (allSome (map (nodeCell t i) processes)) as [cells | ] eqn:EC;
    [ | discriminate ].
  destruct (nth_error aggregatedRss i) as [agg | ]; [ | discriminate ].
  apply (f_equal (fun o => match o with Some x => x | None => text end)) in H.
  cbv beta iota in H. subst text.
  assert (C : forall c, In c (filterBoolean cells) ->
                        exists body, c = "        " ++ body /\ oneLine body).
  { intros c Hc. unfold filterBoolean in Hc. apply filter_In in Hc.
    destruct Hc as [Hc Ne].
    apply (allSome_elements _ _ EC) in Hc. apply in_map_iff in Hc.
    destruct Hc as (e & He & Hin).
    apply nodeCell_text in He. destruct He as [-> | (v & ->)];
      [ discriminate | ].
    rewrite Forall_forall in K. specialize (K e Hin).
    eexists. split; [ reflexivity | ].
    apply (nodeText_noLF (fst e) i v) in K.
    unfold oneLine, nodeText in *. exact K. }
  set (head := "        " ++ "    subgraph T" ++ natStr i ++ "[" ++ dq ++ t
               ++ dq ++ "]").
  set (cellsText := "            "
                    ++ join (nl ++ "        ") (filterBoolean cells)).
  set (aggText := "            " ++ "        " ++ aggId i ++ "[" ++ dq
                  ++ "Aggregated<br/>" ++ toFixed 0 agg ++ "MB" ++ dq ++ "]").
  assert (E : "        "
              ++ ("    subgraph T" ++ natStr i ++ "[" ++ dq ++ t ++ dq ++ "]"
                  ++ nl ++ "            "
                  ++ join (nl ++ "        ") (filterBoolean cells)
                  ++ nl ++ "            "
                  ++ ("        " ++ aggId i ++ "[" ++ dq ++ "Aggregated<br/>"
                      ++ toFixed 0 agg ++ "MB" ++ dq ++ "]")
                  ++ nl ++ "        end")
              = join nl [head; cellsText; aggText; "        end"]).
  { unfold head, cellsText, aggText. cbn [join].
    rewrite !append_assoc. reflexivity. }
  rewrite E in HM. apply in_textLines_parts in HM.
  destruct HM as (y & Hy & HM).
  destruct Hy as [<- | [<- | [<- | [<- | []]]]].
  - rewrite textLines_oneLine in HM.
    + destruct HM as [<- | []]. right. eexists. reflexivity.
    + unfold oneLine, head. rewrite !noChar_app.
      rewrite (natStr_noLF i), T. reflexivity.
  - unfold cellsText in HM.
    destruct (filterBoolean cells) as [ | c1 rest] eqn:EF.
    + simpl in HM. destruct HM as [<- | []]. right. eexists. reflexivity.
    + rewrite textLines_join in HM. apply in_app_or in HM.
      destruct HM as [HM | HM].
      * destruct (C c1 (or_introl eq_refl)) as (body & -> & B).
        rewrite textLines_oneLine in HM.
        -- destruct HM as [<- | []]. right. eexists. reflexivity.
        -- unfold oneLine in *. rewrite !noChar_app, B. reflexivity.
      * apply in_concat in HM. destruct HM as (L & HL & HM).
        apply in_map_iff in HL. destruct HL as (c & <- & Hc).
        destruct (C c (or_intror Hc)) as (body & -> & B).
        rewrite textLines_oneLine in HM.
        -- destruct HM as [<- | []]. right. eexists. reflexivity.
        -- unfold oneLine in *. rewrite !noChar_app, B. reflexivity.
  - rewrite textLines_oneLine in HM.
    + destruct HM as [<- | []]. right. eexists. reflexivity.
    + unfold oneLine, aggText, aggId. rewrite !noChar_app.
      rewrite (natStr_noLF i), (toFixed0_noLF agg). reflexivity.
  - simpl in HM. destruct HM as [<- | []]. now left.
Qed.

(** What the edge map keeps for a Series. *)
Lemma seriesEdges_elements (sampled : list string) (key : string)
                           (data : ProcessData) (s : string) :
  In s (seriesEdges sampled (key, data)) ->
  exists j, s = seriesEdgeText key j /\ entriesAt sampled data j (S j).
Proof.
  unfold seriesEdges, filterBoolean, seriesEdgeCells, mapIdx.
  rewrite filter_In. intros [H Ne].
  apply mapIdxFrom_In in H. destruct H as (k & x & Hk & E).
  rewrite Nat.add_0_l in E.
  destruct k as [ | j]; [ subst s; discriminate | ].
  destruct (nth_error sampled j) as [tp | ] eqn:Hj.
  - rewrite (edgeCell_succ sampled key data tp x j Hj) in E.
    destruct (includes tp (timestamps data)) eqn:I1;
      [ | subst s; discriminate ].
    destruct (includes x (timestamps data)) eqn:I2;
      [ | subst s; discriminate ].
    simpl in E. exists j. split; [ exact E | ].
    exists tp, x. now repeat split.
  - apply nth_error_None in Hj.
    assert (S j < List.length sampled)%nat
      by (apply nth_error_Some; congruence).
    lia.
Qed.

Lemma aggEdges_elements (sampled : list string) (s : string) :
  In s (aggEdges sampled) -> exists j, s = aggEdgeText j.
Proof.
  unfold aggEdges, filterBoolean, aggEdgeCells, mapIdx.
  rewrite filter_In. intros [H Ne].
  apply mapIdxFrom_In in H. destruct H as (k & x & Hk & E).
  rewrite Nat.add_0_l in E.
  destruct k as [ | j]; [ subst s; discriminate | ].
  now exists j.
Qed.

Lemma seriesEdgeText_noLF (key : string) (j : nat) :
  oneLine (seriesEdgeText key j).
Proof.
  unfold oneLine, seriesEdgeText. rewrite !noChar_app.
  rewrite (nodeId_noLF key j), (nodeId_noLF key (S j)). reflexivity.
Qed.

Lemma aggEdgeText_noLF (j : nat) : oneLine (aggEdgeText j).
Proof.
  unfold oneLine, aggEdgeText, aggId. rewrite !noChar_app.
  rewrite (natStr_noLF j), (natStr_noLF (S j)). reflexivity.
Qed.

(** The lines that the edges of the Series make in the diagram. *)
Lemma series_edge_lines (sampled : list string) (processes : ProcessMap)
                        (M : string) :
  In M (textLines
          ("    " ++ join (nl ++ "    ")
                       (map (fun e => join (nl ++ "    ")
                                           (seriesEdges sampled e))
                            processes)))
  <-> M = "    " /\ (processes = []
                     \/ exists e, In e processes /\ seriesEdges sampled e = [])
      \/ exists e s, In e processes /\ In s (seriesEdges sampled e)
                     /\ M = "    " ++ s.
Proof.
  rewrite in_textLines_join. split.
  - intros [[E HM] | (x & Hx & HM)].
    + left. simpl in HM. destruct HM as [<- | []].
      split; [ reflexivity | left ].
      now destruct processes.
    + apply in_map_iff in Hx. destruct Hx as (e & <- & He).
      apply in_textLines_join in HM.
      destruct HM as [[E HM] | (s & Hs & HM)].
      * left. simpl in HM. destruct HM as [<- | []].
        split; [ reflexivity | right ]. now exists e.
      * right. exists e, s. split; [ exact He | ]. split; [ exact Hs | ].
        destruct e as [key data].
        destruct (seriesEdges_elements _ _ _ _ Hs) as (j & -> & _).
        rewrite textLines_oneLine in HM.
        -- now destruct HM as [<- | []].
        -- unfold oneLine. rewrite noChar_app.
           now rewrite (seriesEdgeText_noLF key j).
  - intros [[-> [-> | (e & He & E)]] | (e & s & He & Hs & ->)].
    + left. split; [ reflexivity | now left ].
    + right. exists (join (nl ++ "    ") (seriesEdges sampled e)). split.
      * apply in_map_iff. now exists e.
      * rewrite E. now left.
    + right. exists (join (nl ++ "    ") (seriesEdges sampled e)). split.
      * apply in_map_iff. now exists e.
      * apply in_textLines_join. right. exists s. split; [ exact Hs | ].
        destruct e as [key data].
        destruct (seriesEdges_elements _ _ _ _ Hs) as (j & -> & _).
        rewrite textLines_oneLine; [ now left | ].
        unfold oneLine. rewrite noChar_app.
        now rewrite (seriesEdgeText_noLF key j).
Qed.

Lemma agg_edge_lines (sampled : list string) (M : string) :
  In M (textLines ("    " ++ join (nl ++ "    ") (aggEdges sampled)))
  <-> M = "    " /\ aggEdges sampled = []
      \/ exists s, In s (aggEdges sampled) /\ M = "    " ++ s.
Proof.
  rewrite in_textLines_join. split.
  - intros [[E HM] | (s & Hs & HM)].
    + left. simpl in HM. destruct HM as [<- | []]. now split.
    + right. exists s. split; [ exact Hs | ].
      destruct (aggEdges_elements _ _ Hs) as (j & ->).
      rewrite textLines_oneLine in HM.
      * now destruct HM as [<- | []].
      * unfold oneLine. rewrite noChar_app.
        now rewrite (aggEdgeText_noLF j).
  - intros [[-> E] | (s & Hs & ->)].
    + left. split; [ exact E | now left ].
    + right. exists s. split; [ exact Hs | ].
      destruct (aggEdges_elements _ _ Hs) as (j & ->).
      rewrite textLines_oneLine; [ now left | ].
      unfold oneLine. rewrite noChar_app.
      now rewrite (aggEdgeText_noLF j).
Qed.

(** A line of the [class] statements starts with four spaces and [class],
    or is four spaces. *)
Lemma class_lines (l : list string) (M : string) :
  (forall c, In c l -> exists body, c = "class " ++ body /\ oneLine body) ->
  In M (textLines ("    " ++ join (nl ++ "    ") l)) ->
  M = "    " \/ exists body, M = "    class " ++ body.
Proof.
  intros C HM. apply in_textLines_join in HM.
  destruct HM as [[E HM] | (c & Hc & HM)].
  - simpl in HM. destruct HM as [<- | []]. now left.
  - destruct (C c Hc) as (body & -> & B).
    rewrite textLines_oneLine in HM.
    + destruct HM as [<- | []]. right. now exists body.
    + unfold oneLine in *. rewrite !noChar_app, B. reflexivity.
Qed.

Lemma filterIdxFrom_In {A : Type} (f : A -> nat -> bool) (i : nat)
                       (l : list A) (x : A) :
  In x (filterIdxFrom f i l) -> In x l.
Proof.
  revert i. induction l as [ | a l IH]; intros i H; simpl in H.
  - contradiction.
  - destruct (f a i).
    + destruct H as [H | H]; [ now left | right; now apply (IH (S i)) ].
    + right. now apply (IH (S i)).
Qed.

(** Where the images are pairwise distinct, equal images come from one
    element. *)
Lemma NoDup_map_eq {A B : Type} (f : A -> B) (l : list A) (x y : A) :
  NoDup (map f l) -> In x l -> In y l -> f x = f y -> x = y.
Proof.
  induction l as [ | a l IH]; simpl; intros N Hx Hy E; [ contradiction | ].
  inversion N as [ | ? ? Na Nl]; subst.
  destruct Hx as [-> | Hx], Hy as [-> | Hy].
  - reflexivity.
  - exfalso. apply Na. rewrite E. now apply in_map.
  - exfalso. apply Na. rewrite <- E. now apply in_map.
  - now apply IH.
Qed.

(** The text of the diagram, line group by line group. *)
Lemma diagram_text_parts (processes : ProcessMap) (ts : list string)
                         (subgraphs : list string) :
  allSome (mapIdx (subgraph processes
                     (map (aggregateAt processes) (sampledTimestamps ts)))
                  (sampledTimestamps ts)) = Some subgraphs ->
  generateMermaidChart processes ts
  = Some
      (join nl
         [ "%%{init: {'theme': 'dark'}}%%";
           "flowchart LR";
           "    subgraph Time[" ++ dq ++ "Memory Usage Over Time" ++ dq ++ "]";
           "        direction TB";
           "        " ++ join (nl ++ "        ") subgraphs;
           "    end";
           EmptyString;
           "    " ++ join (nl ++ "    ")
                       (map (fun e => join (nl ++ "    ")
                                        (seriesEdges (sampledTimestamps ts) e))
                            processes);
           EmptyString;
           "    " ++ join (nl ++ "    ") (aggEdges (sampledTimestamps ts));
           "    ";
           "    classDef process fill:#4ECDC4,stroke:#333,stroke-width:2px";
           "    classDef aggregated fill:#FF6B6B,stroke:#333,stroke-width:2px";
           "    " ++ join (nl ++ "    ") (processClassLines processes);
           "    " ++ join (nl ++ "    ")
                       (aggClassLines (sampledTimestamps ts)) ]).
Proof.
  intros H. unfold generateMermaidChart. rewrite H. reflexivity.
Qed.

Ltac expose_edgeLine E := unfold edgeLine in E; cbn [append] in E.

(** The edge lines of the diagram, for keys and timestamps of one line and
    identifiers that are pairwise distinct and differ from that of the
    aggregate. *)
Lemma edges_in_text (processes : ProcessMap) (ts : list string) :
  wfMap processes ->
  distinctIdentifiers processes ->
  Forall (fun e => oneLine (fst e)) processes ->
  Forall oneLine ts ->
  edgesAsSpecified processes ts.
Proof.
  intros W [ND NA] K T.
  set (sampled := sampledTimestamps ts).
  assert (TS : forall t, In t sampled -> oneLine t).
  { intros t Ht. rewrite Forall_forall in T. apply T.
    unfold sampled, sampledTimestamps, filterIdx in Ht.
    now apply filterIdxFrom_In in Ht. }
  destruct (allSome_mapIdxFrom
              (subgraph processes (map (aggregateAt processes) sampled))
              sampled 0) as (sg & Hsg).
  { intros x k Hk. now apply subgraph_returns. }
  pose proof (diagram_text_parts processes ts sg Hsg) as E.
  fold sampled in E.
  eexists. split; [ exact E | ]. clear E. split.
  - intros key data j k Hin. split.
    + intros HM. apply in_textLines_parts in HM.
      destruct HM as (y & Hy & HM).
      repeat (destruct Hy as [Hy | Hy];
              [ subst y; try (rewrite textLines_oneLine in HM by reflexivity;
                              destruct HM as [HM | []]; exfalso;
                              first [ expose_edgeLine HM; discriminate HM
                                    | symmetry in HM; revert HM;
                                      now apply edgeLine_underscore ]) | ]);
        try contradiction.
      * (* the subgraphs *)
        apply in_textLines_join in HM.
        destruct HM as [[_ HM] | (x & Hx & HM)].
        -- rewrite textLines_oneLine in HM by reflexivity.
           destruct HM as [HM | []]. exfalso. symmetry in HM. revert HM.
           now apply (edgeLine_underscore key j k EmptyString).
        -- apply (allSome_elements _ _ Hsg) in Hx.
           apply mapIdxFrom_In in Hx. destruct Hx as (i & t & Hi & Hx).
           symmetry in Hx.
           destruct (subgraph_lines _ _ _ _ _ _ K
                       (TS t (nth_error_In _ _ Hi)) Hx HM) as [L | (r & L)].
           ++ exfalso. revert L. now apply edgeLine_underscore.
           ++ exfalso. revert L. apply edgeLine_not_deeper.
      * (* the edges of the Series *)
        apply series_edge_lines in HM.
        destruct HM as [[L _] | ([key' data'] & s & He & Hs & L)].
        -- exfalso. expose_edgeLine L. discriminate L.
        -- destruct (seriesEdges_elements _ _ _ _ Hs) as (j' & -> & En).
           unfold edgeLine, seriesEdgeText in L.
           do 2 apply append_cancel_l in L.
           apply edge_text_inj in L. destruct L as (Ek & -> & ->).
           assert (P : (key, data) = (key', data'))
             by (apply (NoDup_map_eq (fun e => cleanKey (fst e)) processes);
                 assumption).
           injection P as -> ->. now split.
      * (* the edges of the aggregate *)
        apply agg_edge_lines in HM.
        destruct HM as [[L _] | (s & Hs & L)].
        -- exfalso. expose_edgeLine L. discriminate L.
        -- destruct (aggEdges_elements _ _ Hs) as (j' & ->).
           unfold edgeLine in L.
           change (aggEdgeText j')
             with ("    " ++ nodeId "Agg" j' ++ " --> " ++ nodeId "Agg" (S j'))
             in L.
           do 2 apply append_cancel_l in L.
           apply edge_text_inj in L. destruct L as (Ek & _).
           rewrite Forall_forall in NA. now destruct (NA _ Hin).
      * (* the classes of the Series *)
        apply class_lines in HM.
        -- exfalso. destruct HM as [L | (body & L)];
             expose_edgeLine L; discriminate L.
        -- intros c Hc. unfold processClassLines in Hc.
           apply in_map_iff in Hc. destruct Hc as (k0 & <- & _).
           eexists. split; [ reflexivity | ].
           unfold oneLine. rewrite noChar_app.
           now rewrite (cleanKey_noLF k0).
      * (* the classes of the aggregate *)
        apply class_lines in HM.
        -- exfalso. destruct HM as [L | (body & L)];
             expose_edgeLine L; discriminate L.
        -- intros c Hc. unfold aggClassLines, mapIdx in Hc.
           apply mapIdxFrom_In in Hc. destruct Hc as (i & t & _ & ->).
           eexists. split; [ reflexivity | ].
           unfold oneLine, aggId. rewrite !noChar_app.
           now rewrite (natStr_noLF _).
    + intros [-> (tj & tk & Hj & Hk & Ij & Ik)].
      rewrite edgeLine_series. apply in_textLines_parts.
      eexists. split; [ do 7 right; left; reflexivity | ].
      apply series_edge_lines. right.
      exists (key, data), (seriesEdgeText key j).
      split; [ exact Hin | ]. split; [ | reflexivity ].
      apply (series_edge_iff sampled key data j tj tk Hj Hk). now split.
  - intros j Hj.
    destruct (nth_error sampled (S j)) as [tk | ] eqn:Hk;
      [ | apply nth_error_None in Hk; fold sampled in Hj; lia ].
    apply in_textLines_parts.
    eexists. split; [ do 9 right; left; reflexivity | ].
    apply agg_edge_lines. right. exists (aggEdgeText j).
    split; [ now apply agg_edge_present with tk | reflexivity ].
Qed.

(** *** Keys and timestamps that the parser produces *)

Lemma split_elements_noChar (c : ascii) (s x : string) :
  In x (split c s) -> noChar c x = true.
Proof.
  revert x. induction s as [ | a s IH]; simpl; intros x H.
  - destruct H as [<- | []]. reflexivity.
  - destruct (Ascii.eqb a c) eqn:E.
    + destruct H as [<- | H]; [ reflexivity | now apply IH ].
    + destruct (split c s) as [ | h t] eqn:Es.
      * destruct H as [<- | []]. simpl. now rewrite E.
      * destruct H as [<- | H].
        -- simpl. rewrite E. simpl. apply IH. now left.
        -- apply IH. now right.
Qed.

Lemma split_pieces_noChar (c c' : ascii) (s x : string) :
  noChar c' s = true -> In x (split c s) -> noChar c' x = true.
Proof.
  revert x. induction s as [ | a s IH]; simpl; intros x N H.
  - destruct H as [<- | []]. reflexivity.
  - apply andb_true_iff in N. destruct N as [Na Ns].
    destruct (Ascii.eqb a c).
    + destruct H as [<- | H]; [ reflexivity | now apply IH ].
    + destruct (split c s) as [ | h t] eqn:Es.
      * destruct H as [<- | []]. simpl. now rewrite Na.
      * destruct H as [<- | H].
        -- simpl. rewrite Na. simpl. apply IH; [ exact Ns | now left ].
        -- apply IH; [ exact Ns | now right ].
Qed.

Lemma noChar_trimStart (c : ascii) (s : string) :
  noChar c s = true -> noChar c (trimStart s) = true.
Proof.
  induction s as [ | a s IH]; simpl; [ reflexivity | ].
  intros N. destruct (isWhiteSpace a); [ | exact N ].
  apply andb_true_iff in N. now apply IH.
Qed.

Lemma noChar_trimEnd (c : ascii) (s : string) :
  noChar c s = true -> noChar c (trimEnd s) = true.
Proof.
  induction s as [ | a s IH]; simpl; [ reflexivity | ].
  intros N. apply andb_true_iff in N. destruct N as [Na Ns].
  destruct (isWhiteSpace a && isEmpty (trimEnd s)); [ reflexivity | ].
  simpl. now rewrite Na, (IH Ns).
Qed.

Lemma noChar_trim (c : ascii) (s : string) :
  noChar c s = true -> noChar c (trim s) = true.
Proof. intros N. now apply noChar_trimEnd, noChar_trimStart. Qed.

Lemma cleanKey_app (a b : string) :
  cleanKey (a ++ b) = cleanKey a ++ cleanKey b.
Proof. induction a as [ | x a IH]; simpl; [ | rewrite IH ]; reflexivity. Qed.

(** A sample of a log has a timestamp and a key of one line, and its key,
    which holds a hyphen, is never sanitized to the aggregate's [Agg]. *)
Lemma sample_of_log (content : string) (s : Sample) :
  In s (samplesOfLog content) ->
  oneLine (s_timestamp s) /\ oneLine (s_key s) /\ cleanKey (s_key s) <> "Agg".
Proof.
  unfold samplesOfLog, samplesOf. intros H.
  apply in_flat_map in H. destruct H as (line & Hl & Hs).
  assert (L : oneLine (trim line)).
  { apply noChar_trim. apply (split_elements_noChar _ content).
    revert Hl. generalize (split (ascii_of_nat 10) content). intros l.
    destruct l as [ | x [ | y l]]; simpl; tauto. }
  unfold sampleOfLine in Hs.
  destruct (split "|" (trim line))
    as [ | a [ | b [ | c [ | d [ | e [ | f [ | g r]]]]]]] eqn:Es;
    try contradiction.
  destruct Hs as [<- | []]. cbn [s_timestamp s_key].
  assert (P : forall x, In x [a; b; c; d; e; f] -> oneLine (trim x)).
  { intros x Hx. apply noChar_trim.
    apply (split_pieces_noChar "|" _ (trim line)); [ exact L | ].
    now rewrite Es. }
  split; [ apply P; now left | ]. split.
  - unfold oneLine. rewrite !noChar_app.
    rewrite (P b), (P c); [ reflexivity | simpl; tauto | simpl; tauto ].
  - rewrite !cleanKey_app. intros E.
    assert (N : noChar "_" (cleanKey (trim b) ++ cleanKey "-"
                            ++ cleanKey (trim c)) = true)
      by now rewrite E.
    rewrite !noChar_app in N. simpl in N. now rewrite andb_false_r in N.
Qed.

Lemma parse_keys_one_line (content : string) :
  Forall (fun e => cleanKey (fst e) <> "Agg" /\ oneLine (fst e))
         (fst (parseLogFile content)).
Proof.
  apply Forall_forall. intros [k d] Hin. cbn [fst].
  assert (Hk : In k (map fst (fst (parseLogFile content))))
    by (apply in_map_iff; now exists (k, d)).
  destruct (parseLines_holds content) as (_ & K & _).
  unfold parseLogFile, finish in Hk; simpl in Hk. rewrite K in Hk.
  apply (proj1 (proj2 (firstOccurrences_spec _) k)) in Hk.
  apply in_map_iff in Hk.
  destruct Hk as (s & <- & Hs).
  destruct (sample_of_log content s Hs) as (_ & A & B). now split.
Qed.

Lemma parse_timeline_one_line (content : string) :
  Forall oneLine (snd (parseLogFile content)).
Proof.
  apply Forall_forall. intros t Ht.
  destruct (parseLines_holds content) as (_ & _ & T).
  unfold parseLogFile, finish in Ht; simpl in Ht. rewrite T in Ht.
  apply (proj1 (proj2 (sortStrings_spec _
                         (proj1 (firstOccurrences_spec _))) t)) in Ht.
  apply (proj1 (proj2 (firstOccurrences_spec _) t)) in Ht.
  apply in_map_iff in Ht.
  destruct Ht as (s & <- & Hs).
  now destruct (sample_of_log content s Hs).
Qed.
End DiagramText.

(** C6.  The statement of the specification fails when two keys are sanitized
    to the same identifier: the edge of the one that has both entries reads as
    an edge of the other, which has a gap.  For keys sanitized to pairwise
    distinct identifiers, none of them [Agg], and keys and timestamps that
    hold no newline, the diagram is returned and, for every Series and all
    indices j and k, the line of the edge from its node j to its node k is a
    line of the text exactly when k = j + 1 and the Series has an entry at
    both sampled timestamps; the line of the edge between the aggregate nodes
    j and j + 1 is a line of the text for every consecutive pair.  For the
    Series and the Timeline that the parser builds of a log, pairwise
    distinct identifiers are enough. *)
Theorem C6_sequential_edges :
  (forall (processes : ProcessMap) (ts : list string),
     wfMap processes ->
     distinctIdentifiers processes ->
     Forall (fun e => oneLine (fst e)) processes ->
     Forall oneLine ts ->
     edgesAsSpecified processes ts)
  /\ (forall content : string,
        NoDup (map (fun e => cleanKey (fst e)) (fst (parseLogFile content))) ->
        edgesAsSpecified (fst (parseLogFile content))
                         (snd (parseLogFile content))).
Proof.
  split; [ exact edges_in_text | ].
  intros content N.
  pose proof (parse_keys_one_line content) as K.
  apply edges_in_text.
  - apply parseLogFile_wf.
  - split; [ exact N | ].
    eapply Forall_impl; [ | exact K ]. now intros e [A _].
  - eapply Forall_impl; [ | exact K ]. now intros e [_ B].
  - apply parse_timeline_one_line.
Qed.

Lemma C6_sequential_edges_witness :
  edgesAsSpecified (fst (parseLogFile twoDaemonsLog))
                   (snd (parseLogFile twoDaemonsLog)).
Proof.
  apply (proj2 C6_sequential_edges twoDaemonsLog).
  vm_compute. repeat (constructor; [ simpl; intuition discriminate | ]).
  constructor.
Defined.

Lemma C6_colliding_keys_counterexample :
  wfMap collidingKeys
  /\ Forall (fun e => cleanKey (fst e) <> "Agg" /\ oneLine (fst e))
            collidingKeys
  /\ Forall oneLine collidingTimeline
  /\ ~ edgesAsSpecified collidingKeys collidingTimeline.
Proof.
  split; [ repeat constructor | ].
  split; [ repeat constructor; discriminate | ].
  split; [ repeat constructor | ].
  intros (text & E & H & _).
  vm_compute in E. injection E as <-.
  destruct (H "1-A_B" (mkProcessData ["00:00:00"] [numZ 30]) 0%nat 1%nat)
    as [F _].
  { right. left. reflexivity. }
  destruct F as [_ (tj & tk & _ & Hk & _ & Ik)].
  { vm_compute. repeat (first [ left; reflexivity | right ]). }
  vm_compute in Hk. injection Hk as <-. discriminate Ik.
Qed.
